(** * go-workspace: application directories and keyword substitution

    A shallow embedding of the Go package [workspace] (files [dir.go] and
    [workspace.go]) together with the properties its specification states.

    Strings are Go strings seen as byte sequences ([string]).  The two keyword
    maps of [AppDirs] are [gmap string string]; a nil Go map and an empty one
    are both [∅], since the package only reads nil maps and allocates them
    before the first write.  A [*Dir] slot is an [option Dir].  Calls into the
    operating system go through a small state monad over a [World] that holds
    the directory tree and the log of system calls performed; a nil pointer
    dereference or an out-of-range index is the outcome [Panic].

    [src/workspace.go] and the unnamed source parts also hold earlier
    revisions of the two files; the embedding follows the latest one:
    [dir.go] with the functional options and the revision of [workspace.go]
    that goes through [d.Path()] and [d.Aliases()].  The default alias tables
    are package variables; they are read as [init()] leaves them.

    The functions of the Go standard library the package calls
    ([strings], [sort], [path/filepath]) are embedded for platforms whose
    path separator is the slash; [goos_windows] only steers the branches the
    package itself takes on [runtime.GOOS]. *)

From Stdlib Require Import ZArith Ascii String List Lia Sorting.Sorted Permutation.
From stdpp Require Import base option list strings sorting gmap fin_maps.

Open Scope Z_scope.

(* ====================================================================== *)
(** * Part I — definitions *)
(* ====================================================================== *)

(** ** Results, errors and outcomes *)

(** A Go [error] is its message; [None] is [nil]. *)
Definition error : Type := option string.

(** A Go pair [(T, error)]. *)
Inductive result (A : Type) : Type :=
| Ok (a : A)
| Err (msg : string).
Arguments Ok {A} a.
Arguments Err {A} msg.

(** What running a piece of Go code ends in: a value, or a runtime panic. *)
Inductive outcome (A : Type) : Type :=
| Done (a : A)
| Panic (why : string).
Arguments Done {A} a.
Arguments Panic {A} why.

(** ** Package [strings] *)

Module GoStrings.

(** [strings.HasPrefix(s, prefix)]. *)
Fixpoint HasPrefix (s pre : string) : bool :=
  match pre, s with
  | EmptyString, _ => true
  | String a pre', String b s' => Ascii.eqb a b && HasPrefix s' pre'
  | String _ _, EmptyString => false
  end.

(** [strings.Contains(s, substr)]. *)
Fixpoint Contains (s sub : string) : bool :=
  HasPrefix s sub ||
  match s with
  | EmptyString => false
  | String _ s' => Contains s' sub
  end.

(** [strings.Split(s, string(sep))] for a one-byte separator. *)
Fixpoint Split (s : string) (sep : ascii) : list string :=
  match s with
  | EmptyString => [EmptyString]
  | String c s' =>
      if Ascii.eqb c sep then EmptyString :: Split s' sep
      else match Split s' sep with
           | h :: t => String c h :: t
           | [] => [String c EmptyString]
           end
  end.

(** [strings.Join(elems, string(sep))]. *)
Fixpoint Join (elems : list string) (sep : ascii) : string :=
  match elems with
  | [] => EmptyString
  | [e] => e
  | e :: rest => e +:+ String sep (Join rest sep)
  end.

(** The scan of [strings.Replace] for a non-empty [old]: [skip] counts the
    bytes of a match still to be dropped, [limit] the replacements left
    ([None]: no limit, the [n < 0] of Go). *)
Fixpoint replaceScan (old new : string) (limit : option nat) (skip : nat)
    (s : string) : string :=
  match s with
  | EmptyString => EmptyString
  | String c s' =>
      match skip with
      | S k => replaceScan old new limit k s'
      | O =>
          match limit with
          | Some O => s
          | _ =>
              if HasPrefix s old
              then new +:+ replaceScan old new (Nat.pred <$> limit)
                             (Nat.pred (String.length old)) s'
              else String c (replaceScan old new limit O s')
          end
      end
  end.

(** [strings.Replace] with an empty [old]: [new] goes in front of the string
    and after every byte (Go steps by UTF-8 sequence; the two agree on
    ASCII text). *)
Fixpoint replaceEmpty (new : string) (limit : option nat) (s : string) : string :=
  match limit with
  | Some O => s
  | _ =>
      new +:+ match s with
              | EmptyString => EmptyString
              | String c s' => String c (replaceEmpty new (Nat.pred <$> limit) s')
              end
  end.

(** [strings.Replace(s, old, new, n)]. *)
Definition Replace (s old new : string) (n : Z) : string :=
  let limit := if Z.ltb n 0 then None else Some (Z.to_nat n) in
  if String.eqb old new then s
  else if String.eqb old EmptyString then replaceEmpty new limit s
  else replaceScan old new limit O s.

(** [strings.ReplaceAll(s, old, new)]. *)
Definition ReplaceAll (s old new : string) : string := Replace s old new (-1).

Fixpoint trimSuffixScan (s suffix : string) : string :=
  match s with
  | EmptyString => EmptyString
  | String c s' =>
      if String.eqb s' suffix then String c EmptyString
      else String c (trimSuffixScan s' suffix)
  end.

(** [strings.TrimSuffix(s, suffix)]. *)
Definition TrimSuffix (s suffix : string) : string :=
  if String.eqb s suffix then EmptyString else trimSuffixScan s suffix.

(** [strings.Count(s, string(sep))] for a one-byte separator. *)
Fixpoint Count (s : string) (sep : ascii) : nat :=
  match s with
  | EmptyString => O
  | String c s' => ((if Ascii.eqb c sep then 1 else 0) + Count s' sep)%nat
  end.

End GoStrings.

(** ** Package [path/filepath], slash-separated platforms *)

Module filepath.
Import GoStrings.

(** [os.PathSeparator]. *)
Definition Separator : ascii := "/"%char.

(** [filepath.IsAbs]. *)
Definition IsAbs (path : string) : bool := HasPrefix path (String Separator EmptyString).

(** One path element of [Clean]; [out] is the element stack, last element
    first.  [".."] backtracks over a real element, is appended when the path
    is not rooted and nothing can be dropped, and is discarded at the root. *)
Definition cleanStep (rooted : bool) (out : list string) (seg : string) : list string :=
  if String.eqb seg EmptyString || String.eqb seg "." then out
  else if String.eqb seg ".." then
    match out with
    | top :: rest =>
        if String.eqb top ".." then (if rooted then out else seg :: out) else rest
    | [] => if rooted then [] else [seg]
    end
  else seg :: out.

(** [filepath.Clean]. *)
Definition Clean (path : string) : string :=
  if String.eqb path EmptyString then "."
  else
    let rooted := IsAbs path in
    let out := rev (fold_left (cleanStep rooted) (Split path Separator) []) in
    if rooted then String Separator (Join out Separator)
    else match out with
         | [] => "."
         | _ => Join out Separator
         end.

(** [filepath.Join(a, b)]: the elements from the first non-empty one on are
    glued with the separator and cleaned. *)
Definition Join2 (a b : string) : string :=
  if negb (String.eqb a EmptyString) then Clean (a +:+ String Separator b)
  else if negb (String.eqb b EmptyString) then Clean b
  else EmptyString.

(** [filepath.Split]: the text up to and including the last separator, and the
    text after it. *)
Fixpoint SplitPath (path : string) : string * string :=
  match path with
  | EmptyString => (EmptyString, EmptyString)
  | String c p' =>
      let '(d, f) := SplitPath p' in
      if Ascii.eqb c Separator then
        (if String.eqb d EmptyString then (String c EmptyString, p') else (String c d, f))
      else if String.eqb d EmptyString then (EmptyString, String c f)
      else (String c d, f)
  end.

(** [filepath.VolumeName]: always empty here. *)
Definition VolumeName (path : string) : string := EmptyString.

(** [filepath.Dir]. *)
Definition Dir (path : string) : string := Clean (fst (SplitPath path)).

(** The elements [Rel] walks over: the pieces between separators, where the
    text after the final separator of the root ["/"] is no element. *)
Definition relElems (p : string) : list string :=
  if String.eqb p EmptyString then []
  else if String.eqb p (String Separator EmptyString) then [EmptyString]
  else Split p Separator.

(** The common leading elements of base and target are dropped. *)
Fixpoint relStrip (bs ts : list string) : list string * list string :=
  match bs, ts with
  | b :: bs', t :: ts' => if String.eqb b t then relStrip bs' ts' else (bs, ts)
  | _, _ => (bs, ts)
  end.

(** [filepath.Rel(basepath, targpath)]. *)
Definition Rel (basepath targpath : string) : result string :=
  let base := Clean basepath in
  let targ := Clean targpath in
  if String.eqb targ base then Ok "."
  else
    let base := if String.eqb base "." then EmptyString else base in
    if negb (Bool.eqb (IsAbs base) (IsAbs targ)) then
      Err ("Rel: can't make " +:+ targpath +:+ " relative to " +:+ basepath)
    else
      let '(bs, ts) := relStrip (relElems base) (relElems targ) in
      match bs, ts with
      | b :: _, _ :: _ =>
          if String.eqb b ".." then
            Err ("Rel: can't make " +:+ targpath +:+ " relative to " +:+ basepath)
          else Ok (Join (map (fun _ => "..") bs ++ ts) Separator)
      | _ :: _, [] => Ok (Join (map (fun _ => "..") bs) Separator)
      | [], _ => Ok (Join ts Separator)
      end.

End filepath.

(** ** Package [sort] *)

Module GoSort.

Section StableSort.
Context {A : Type} (less : A -> A -> bool).

(** [x] goes in front of the first element that [less] does not put before
    it: elements that compare equal keep their order. *)
Fixpoint insertStable (x : A) (l : list A) : list A :=
  match l with
  | [] => [x]
  | y :: l' => if less y x then y :: insertStable x l' else x :: l
  end.

(** [sort.SliceStable(l, less)]: the sorted order of a stable sort does not
    depend on the algorithm. *)
Fixpoint SliceStable (l : list A) : list A :=
  match l with
  | [] => []
  | x :: l' => insertStable x (SliceStable l')
  end.

End StableSort.

(** [sort.Strings]: ascending byte-wise order. *)
Definition Strings (l : list string) : list string := merge_sort String.le l.

End GoSort.

(** ** The process environment and the directory tree *)

(** What the operating system answers to the read-only queries the package
    makes; [goos_windows] is [runtime.GOOS == "windows"]. *)
Record Env : Type := mkEnv {
  goos_windows : bool;
  os_Args0 : string;
  os_Getwd : result string;
  os_UserCacheDir : result string;
  os_UserHomeDir : result string;
  os_TempDir : string
}.

Inductive syscall : Type :=
| SysStat (p : string)
| SysMkdir (p : string)
| SysRemoveAll (p : string).

(** The directory tree maps a path to [true] for a directory and [false] for
    a file; entries listed in [readonly] cannot be created or removed. *)
Record World : Type := mkWorld {
  tree : gmap string bool;
  readonly : list string;
  trace : list syscall
}.

(** Code that talks to the operating system. *)
Definition M (A : Type) : Type := World -> outcome (A * World).

Definition ret {A} (a : A) : M A := fun w => Done (a, w).

Definition bind {A B} (m : M A) (k : A -> M B) : M B :=
  fun w => match m w with
           | Done (a, w') => k a w'
           | Panic why => Panic why
           end.

Definition panic {A} (why : string) : M A := fun _ => Panic why.

Definition lift {A} (o : outcome A) : M A :=
  fun w => match o with Done a => Done (a, w) | Panic why => Panic why end.

Notation "'let*' x ':=' m 'in' k" := (bind m (fun x => k))
  (at level 10, x name, m at level 100, k at level 200, only parsing).

Definition logCall (c : syscall) (w : World) : World :=
  mkWorld (tree w) (readonly w) (trace w ++ [c]).

(** [p] is [root] or lies below it in the tree. *)
Definition atOrBelow (root p : string) : bool :=
  String.eqb p root
  || GoStrings.HasPrefix p (root +:+ String filepath.Separator EmptyString).

(** [os.Stat(p)]: [Some isDir], or [None] when the call fails. *)
Definition os_Stat (p : string) : M (option bool) :=
  fun w => Done (tree w !! p, logCall (SysStat p) w).

(** [os.Mkdir(p, 0755)]. *)
Definition os_Mkdir (p : string) : M error :=
  fun w =>
    let w' := logCall (SysMkdir p) w in
    match tree w !! p, tree w !! filepath.Dir p with
    | None, Some true =>
        if existsb (String.eqb p) (readonly w)
        then Done (Some ("mkdir " +:+ p +:+ ": permission denied"), w')
        else Done (None, mkWorld (<[p := true]> (tree w)) (readonly w) (trace w'))
    | Some _, _ => Done (Some ("mkdir " +:+ p +:+ ": file exists"), w')
    | None, _ => Done (Some ("mkdir " +:+ p +:+ ": no such file or directory"), w')
    end.

(** [os.RemoveAll(p)]: removes [p] and everything below it; a missing [p] is
    no error. *)
Definition os_RemoveAll (p : string) : M error :=
  fun w =>
    let w' := logCall (SysRemoveAll p) w in
    if existsb (atOrBelow p) (readonly w)
    then Done (Some ("unlinkat " +:+ p +:+ ": permission denied"), w')
    else Done (None,
               mkWorld (filter (fun kv => atOrBelow p kv.1 = false) (tree w))
                       (readonly w) (trace w')).

(** ** [dir.go] *)

(** [type DirType int]. *)
Definition DirType : Type := Z.

Definition Cache : DirType := 1.
Definition Config : DirType := 2.
Definition Home : DirType := 3.
Definition Workspace : DirType := 4.
Definition Temp : DirType := 5.

Definition defaultCache : list string := ["$CACHE"; "${CACHE}"].
Definition defaultConfig : list string := [].
Definition defaultHomeDecl : list string := ["$HOME"; "${HOME}"].
Definition defaultTemp : list string :=
  ["$TEMP"; "${TEMP}"; "$TMP"; "${TMP}"; "$TMPDIR"; "${TMPDIR}"; "$TEMPDIR"; "${TEMPDIR}"].
Definition defaultWorkspace : list string :=
  ["$workspaceRoot"; "${workspaceRoot}"; "$PWD"; "${PWD}"].

(** [defaultHome] once [init()] of [workspace.go] has run. *)
Definition defaultHome (env : Env) : list string :=
  if negb (goos_windows env) then defaultHomeDecl ++ ["~"] else defaultHomeDecl.

Record Dir : Type := mkDir {
  dirType : DirType;
  path : string;
  aliases : list string
}.

Record options : Type := mkOptions {
  opt_path : string;
  opt_aliases : list string
}.

(** The two implementations of the interface [Option]. *)
Inductive Option : Type :=
| aliasesOption (Aliases : list string)
| pathOption (Path : string).

Definition apply (o : Option) (opts : options) : options :=
  match o with
  | aliasesOption a => mkOptions (opt_path opts) a
  | pathOption p => mkOptions p (opt_aliases opts)
  end.

Definition WithAliases (aliases : list string) : Option := aliasesOption aliases.
Definition WithPath (path : string) : Option := pathOption path.

Fixpoint exists_ (arr : list string) (item : string) : bool :=
  match arr with
  | [] => false
  | a :: arr' => if String.eqb a item then true else exists_ arr' item
  end.

(** Indexing a Go array: out of range is a runtime panic. *)
Definition index {A} (arr : list A) (i : Z) : outcome A :=
  if Z.ltb i 0 then Panic "index out of range"
  else match nth_error arr (Z.to_nat i) with
       | Some x => Done x
       | None => Panic "index out of range"
       end.

(** [func (d DirType) String() string]. *)
Definition String_ (d : DirType) : outcome string :=
  if Z.ltb d Cache || Z.ltb Temp d then Done EmptyString
  else index ["cache"; "config"; "home"; "workspace"; "temp"] (d - 1).

(** The same method in the earlier single-file revision kept at the head of
    [workspace.go]: the array is indexed with [d] itself. *)
Definition String_rev0 (d : DirType) : outcome string :=
  if Z.ltb d Cache || Z.ltb Temp d then Done EmptyString
  else index ["cache"; "config"; "home"; "workspace"; "temp"] d.

(** [AbsPath(base, path)]. *)
Definition AbsPath (env : Env) (base path : string) : string :=
  let path :=
    if negb (goos_windows env) && GoStrings.HasPrefix path "~" then
      let dir := match os_UserHomeDir env with Ok d => d | Err _ => "~" end in
      GoStrings.Replace path "~" dir 1
    else path in
  if filepath.IsAbs path then filepath.Clean path
  else filepath.Clean (filepath.Join2 base path).

(** The [for] loop of [Root]; [fuel] bounds the iterations. *)
Fixpoint rootLoop (fuel : nat) (dir : string) (isRoot : bool) : M (option (result string)) :=
  match fuel with
  | O => ret None
  | S fuel' =>
      let* s := os_Stat (filepath.Join2 dir ".git") in
      match s with
      | Some true => ret (Some (Ok dir))
      | _ =>
          if isRoot then
            ret (Some (Err "cannot identify workspace root (no .git repository found)"))
          else
            let dir := filepath.Dir dir in
            let isRoot :=
              String.eqb dir (filepath.VolumeName dir +:+ String filepath.Separator EmptyString)
              || String.eqb dir (String filepath.Separator EmptyString) in
            rootLoop fuel' dir isRoot
      end
  end.

(** [Root(appName)].  Every pass of the loop replaces [dir] by its parent, so
    two more passes than [dir] has bytes reach the root of a clean absolute
    directory; a loop that has not returned by then is reported as [None]. *)
Definition Root (env : Env) (appName : string) : M (option (result string)) :=
  let cmd := snd (filepath.SplitPath (os_Args0 env)) in
  match os_Getwd env with
  | Err e => ret (Some (Err e))
  | Ok dir =>
      if String.eqb cmd appName then ret (Some (Ok dir))
      else rootLoop (S (S (String.length dir))) dir false
  end.

(** The path [NewDir] derives from the directory type when none is given,
    with the error of the platform lookup, if any. *)
Definition defaultPath (env : Env) (dirType : DirType) (appName : string)
    : M (option (string * error)) :=
  let unpack (r : result string) : string * error :=
    match r with Ok p => (p, None) | Err e => (EmptyString, Some e) end in
  if Z.eqb dirType Cache then
    let '(p, err) := unpack (os_UserCacheDir env) in
    ret (Some (filepath.Join2 p appName, err))
  else if Z.eqb dirType Config || Z.eqb dirType Workspace then
    let* r := Root env appName in
    ret (unpack <$> r)
  else if Z.eqb dirType Home then ret (Some (unpack (os_UserHomeDir env)))
  else if Z.eqb dirType Temp then
    ret (Some (filepath.Join2 (os_TempDir env) appName, None))
  else ret (Some (EmptyString, None)).

(** The alias table [NewDir] and [Assign] fall back to. *)
Definition defaultAliases (env : Env) (dirType : DirType) : option (list string) :=
  if Z.eqb dirType Cache then Some defaultCache
  else if Z.eqb dirType Config then Some defaultConfig
  else if Z.eqb dirType Workspace then Some defaultWorkspace
  else if Z.eqb dirType Home then Some (defaultHome env)
  else if Z.eqb dirType Temp then Some defaultTemp
  else None.

(** [NewDir(dirType, appName, opts...)]; [None] when [Root] does not return. *)
Definition NewDir (env : Env) (dirType : DirType) (appName : string)
    (opts : list Option) : M (option (result Dir)) :=
  let options := fold_left (fun acc o => apply o acc) opts (mkOptions EmptyString []) in
  let* init :=
    (if negb (String.eqb (opt_path options) EmptyString) then
       if negb (filepath.IsAbs (opt_path options)) then
         ret (Some (inl ("cannot process relative path: " +:+ opt_path options)))
       else ret (Some (inr (opt_path options, None)))
     else
       let* r := defaultPath env dirType appName in
       ret (inr <$> r)) in
  match init with
  | None => ret None
  | Some (inl msg) => ret (Some (Err msg))
  | Some (inr (p, Some _)) =>
      let* name := lift (String_ dirType) in
      ret (Some (Err ("cannot initialize directory: " +:+ name)))
  | Some (inr (p, None)) =>
      let als :=
        if Nat.eqb (length (opt_aliases options)) 0 then
          match defaultAliases env dirType with
          | Some dflt => dflt
          | None => opt_aliases options
          end
        else opt_aliases options in
      ret (Some (Ok (mkDir dirType (filepath.Clean p) als)))
  end.

(** [func (d *Dir) Aliases() []string]. *)
Definition Aliases (d : Dir) : list string := aliases d.

(** [func (d *Dir) AppendAliases(aliases ...string)]. *)
Definition AppendAliases (d : Dir) (als : list string) : Dir :=
  let appended :=
    fold_left (fun cur a => if negb (exists_ cur a) then cur ++ [a] else cur)
              als (aliases d) in
  mkDir (dirType d) (path d) (GoSort.Strings appended).

Fixpoint removeFirst (a : string) (l : list string) : list string :=
  match l with
  | [] => []
  | curr :: l' => if String.eqb a curr then l' else curr :: removeFirst a l'
  end.

(** [func (d *Dir) RemoveAliases(aliases ...string)]. *)
Definition RemoveAliases (d : Dir) (als : list string) : Dir :=
  mkDir (dirType d) (path d) (fold_left (fun cur a => removeFirst a cur) als (aliases d)).

(** ** [workspace.go] *)

Record AppDirs : Type := mkAppDirs {
  cache : option Dir;
  config : option Dir;
  home : option Dir;
  temp : option Dir;
  workspace : option Dir;
  keywords : gmap string string;
  keywordsReverse : gmap string string
}.

(** [AppDirs{}]. *)
Definition emptyAppDirs : AppDirs := mkAppDirs None None None None None ∅ ∅.

(** The loop [for i, alias := range d.Aliases()] shared by [initKeywords] and
    [Assign], from index [i] on. *)
Fixpoint addAliases (p : string) (i : nat) (als : list string)
    (maps : gmap string string * gmap string string)
    : gmap string string * gmap string string :=
  match als with
  | [] => maps
  | alias :: rest =>
      addAliases p (S i) rest
        (<[alias := p]> (fst maps),
         if Nat.eqb i 0 then <[p := alias]> (snd maps) else snd maps)
  end.

Definition addDir (maps : gmap string string * gmap string string) (d : Dir)
    : gmap string string * gmap string string :=
  addAliases (path d) 0 (Aliases d) maps.

(** The slice [dirs] of [initKeywords]: the assigned descriptors in the order
    cache, config, home, temp, workspace. *)
Definition registered (a : AppDirs) : list Dir :=
  option_list (cache a) ++ option_list (config a) ++ option_list (home a)
  ++ option_list (temp a) ++ option_list (workspace a).

(** [func (a *AppDirs) initKeywords()]. *)
Definition initKeywords (a : AppDirs) : AppDirs :=
  let maps := fold_left addDir (registered a) (∅, ∅) in
  mkAppDirs (cache a) (config a) (home a) (temp a) (workspace a) (fst maps) (snd maps).

(** The descriptor [Assign] stores: the defaults are appended when the
    descriptor has no alias. *)
Definition withDefaults (dflt : list string) (d : Dir) : Dir :=
  if Nat.eqb (length (Aliases d)) 0 then AppendAliases d dflt else d.

(** [func (a *AppDirs) Assign(d Dir)]. *)
Definition Assign (env : Env) (a : AppDirs) (d : Dir) : AppDirs :=
  let '(updated, d, a) :=
    if Z.eqb (dirType d) Cache then
      let d' := withDefaults defaultCache d in
      (bool_decide (cache a ≠ None), d',
       mkAppDirs (Some d') (config a) (home a) (temp a) (workspace a)
                 (keywords a) (keywordsReverse a))
    else if Z.eqb (dirType d) Config then
      let d' := withDefaults defaultConfig d in
      (bool_decide (config a ≠ None), d',
       mkAppDirs (cache a) (Some d') (home a) (temp a) (workspace a)
                 (keywords a) (keywordsReverse a))
    else if Z.eqb (dirType d) Home then
      let d' := withDefaults (defaultHome env) d in
      (bool_decide (home a ≠ None), d',
       mkAppDirs (cache a) (config a) (Some d') (temp a) (workspace a)
                 (keywords a) (keywordsReverse a))
    else if Z.eqb (dirType d) Temp then
      let d' := withDefaults defaultTemp d in
      (bool_decide (temp a ≠ None), d',
       mkAppDirs (cache a) (config a) (home a) (Some d') (workspace a)
                 (keywords a) (keywordsReverse a))
    else if Z.eqb (dirType d) Workspace then
      let d' := withDefaults defaultWorkspace d in
      (bool_decide (workspace a ≠ None), d',
       mkAppDirs (cache a) (config a) (home a) (temp a) (Some d')
                 (keywords a) (keywordsReverse a))
    else (false, d, a) in
  if updated then initKeywords a
  else
    let maps := addDir (keywords a, keywordsReverse a) d in
    mkAppDirs (cache a) (config a) (home a) (temp a) (workspace a) (fst maps) (snd maps).

(** Reading a field through a [*Dir] that may be nil. *)
Definition deref {A} (field : Dir -> A) (p : option Dir) : outcome A :=
  match p with
  | Some d => Done (field d)
  | None => Panic "invalid memory address or nil pointer dereference"
  end.

(** [func (a *AppDirs) Cache() string]. *)
Definition Cache_ (a : AppDirs) : outcome string :=
  if bool_decide (cache a ≠ None) then deref path (cache a) else Done EmptyString.

(** [func (a *AppDirs) Config() string]: the guard tests [a.cache]. *)
Definition Config_ (a : AppDirs) : outcome string :=
  if bool_decide (cache a ≠ None) then deref path (config a) else Done EmptyString.

(** [func (a *AppDirs) Home() string]. *)
Definition Home_ (a : AppDirs) : outcome string :=
  if bool_decide (home a ≠ None) then deref path (home a) else Done EmptyString.

(** [func (a *AppDirs) Temp() string]. *)
Definition Temp_ (a : AppDirs) : outcome string :=
  if bool_decide (temp a ≠ None) then deref path (temp a) else Done EmptyString.

(** [func (a *AppDirs) Workspace() string]. *)
Definition Workspace_ (a : AppDirs) : outcome string :=
  if bool_decide (workspace a ≠ None) then deref path (workspace a) else Done EmptyString.

(** [func (a *AppDirs) CreateTemp() error]. *)
Definition CreateTemp (a : AppDirs) : M error :=
  let* p := lift (Temp_ a) in
  if String.eqb p EmptyString then
    ret (Some "cannot create temp directory, invalid state")
  else
    let* info := os_Stat p in
    match info with
    | Some isDir =>
        if isDir then ret None
        else ret (Some ("cannot create temp directory: '" +:+ p +:+ "'"))
    | None =>
        let* e := os_Mkdir p in
        match e with
        | Some _ => ret (Some ("cannot create temp directory: " +:+ p))
        | None => ret None
        end
    end.

(** [func (a *AppDirs) RemoveTemp(subdir string) error]. *)
Definition RemoveTemp (env : Env) (a : AppDirs) (subdir : string) : M error :=
  let* p := lift (deref path (temp a)) in
  if String.eqb p EmptyString then
    ret (Some "temp directory is not configured correctly")
  else
    let tmp := filepath.Clean (os_TempDir env) in
    let current := filepath.Join2 p subdir in
    if negb (GoStrings.HasPrefix current tmp) then
      ret (Some "temp directory is considered unsafe")
    else if String.eqb current tmp then
      ret (Some "expected a subdirectory within the temp directory")
    else
      let* e := os_RemoveAll current in
      match e with
      | Some msg => ret (Some msg)
      | None => ret None
      end.

(** [func (a *AppDirs) RecreateTemp(subdir string) error]. *)
Definition RecreateTemp (env : Env) (a : AppDirs) (subdir : string) : M error :=
  let* e := RemoveTemp env a subdir in
  match e with
  | Some msg => ret (Some msg)
  | None =>
      let* p := lift (deref path (temp a)) in
      let target := filepath.Join2 p subdir in
      let* e := os_Mkdir target in
      match e with
      | Some _ => ret (Some ("cannot create temp directory: " +:+ target))
      | None => ret None
      end
  end.

(** The body of the loop of [MakeAbsolute]: a missing key reads as [""]. *)
Definition substituteSegment (kw : gmap string string) (result segment : string) : string :=
  let s := default EmptyString (kw !! segment) in
  if negb (String.eqb s EmptyString) then filepath.Join2 result s
  else filepath.Join2 result segment.

(** [func (a *AppDirs) MakeAbsolute(basePath, input string) string]. *)
Definition MakeAbsolute (env : Env) (a : AppDirs) (basePath input : string) : string :=
  let segments := GoStrings.Split input filepath.Separator in
  let result := fold_left (substituteSegment (keywords a)) segments EmptyString in
  let result :=
    if filepath.IsAbs input && negb (goos_windows env) && negb (filepath.IsAbs result)
    then String filepath.Separator result
    else result in
  AbsPath env basePath result.

(** [func (a *AppDirs) MakeRelative(basePath, input string) string]. *)
Definition MakeRelative (env : Env) (a : AppDirs) (basePath input : string) : string :=
  let abs := MakeAbsolute env a basePath input in
  match filepath.Rel basePath abs with
  | Ok rel => rel
  | Err _ => filepath.Clean input
  end.

(** The local type [item] of [Parameterize]. *)
Record item : Type := mkItem {
  key : string;
  value : string
}.

(** The comparison handed to [sort.SliceStable]. *)
Definition longerKey (i j : item) : bool :=
  Nat.ltb (String.length (key j)) (String.length (key i)).

(** The slice [ordered] of [Parameterize] for one iteration order of the
    reverse map: [make([]item, n)] sets up [n] zero items and the loop
    appends the entries behind them, before the stable sort. *)
Definition orderedItems (order : list (string * string)) : list item :=
  GoSort.SliceStable longerKey
    (replicate (length order) (mkItem EmptyString EmptyString)
     ++ map (fun kv => mkItem kv.1 kv.2) order).

Definition substituteItem (input : string) (o : item) : string :=
  GoStrings.ReplaceAll input (key o) (value o).

(** What [Parameterize] does once the paths have been substituted. *)
Definition relativeToBase (basePath input : string) : string :=
  let input := GoStrings.TrimSuffix input (String filepath.Separator EmptyString) in
  if negb (filepath.IsAbs input) then
    match filepath.Rel basePath input with
    | Err _ => filepath.Clean input
    | Ok result => result
    end
  else input.

(** [Parameterize] on one run of [for k, v := range a.keywordsReverse]: Go
    leaves the order of a map iteration open, so [order] is any arrangement
    of the entries of the reverse map. *)
Definition ParameterizeWith (order : list (string * string)) (basePath input : string)
    : string :=
  relativeToBase basePath (fold_left substituteItem (orderedItems order) input).

(** The arrangements a [range] over the map [m] can produce. *)
Definition iterationOf (m : gmap string string) (order : list (string * string)) : Prop :=
  order ≡ₚ map_to_list m.

(** [func (a *AppDirs) Parameterize(basePath, input string) string], on the
    iteration order [map_to_list] happens to give. *)
Definition Parameterize (a : AppDirs) (basePath input : string) : string :=
  ParameterizeWith (map_to_list (keywordsReverse a)) basePath input.

(** [NewAppDirs(appName)]. *)
Definition NewAppDirs (env : Env) (appName : string) : M (option (result AppDirs)) :=
  let step (kind : DirType) (k : Dir -> M (option (result AppDirs)))
      : M (option (result AppDirs)) :=
    let* r := NewDir env kind appName [] in
    match r with
    | None => ret None
    | Some (Err e) => ret (Some (Err e))
    | Some (Ok d) => k d
    end in
  step Cache (fun c =>
  step Config (fun g =>
  step Home (fun h =>
  step Temp (fun t =>
  step Workspace (fun w =>
    ret (Some (Ok (initKeywords
      (mkAppDirs (Some c) (Some g) (Some h) (Some t) (Some w) ∅ ∅))))))))).

(** ** The specification's wording, for comparison with the code *)

(** Path containment: [p] is [root] itself or a path below it. *)
Definition containedIn (root p : string) : bool :=
  String.eqb p root
  || GoStrings.HasPrefix p
       (if String.eqb root (String filepath.Separator EmptyString) then root
        else root +:+ String filepath.Separator EmptyString).

(** [p] is a proper subdirectory of [root]. *)
Definition properSubdir (root p : string) : bool :=
  containedIn root p && negb (String.eqb p root).

(** Segment-wise keyword substitution as the specification words it: a
    segment that is a key of the forward map is replaced by the mapped path,
    any other segment is kept. *)
Definition substituteSegment_spec (kw : gmap string string) (segment : string) : string :=
  match kw !! segment with
  | Some p => p
  | None => segment
  end.

Definition MakeAbsolute_spec (env : Env) (a : AppDirs) (basePath input : string) : string :=
  let segments := map (substituteSegment_spec (keywords a))
                      (GoStrings.Split input filepath.Separator) in
  let result := fold_left filepath.Join2 segments EmptyString in
  let result :=
    if filepath.IsAbs input && negb (goos_windows env) && negb (filepath.IsAbs result)
    then String filepath.Separator result
    else result in
  AbsPath env basePath result.

(** ** Sample data *)

Definition unixEnv : Env :=
  mkEnv false "/usr/local/bin/Test" (Ok "/home/u/proj")
        (Ok "/home/u/.cache") (Ok "/home/u") "/tmp".

Definition windowsEnv : Env :=
  mkEnv true "/usr/local/bin/Test" (Ok "/home/u/proj")
        (Ok "/home/u/.cache") (Ok "/home/u") "/tmp".

Definition sampleWorld : World :=
  mkWorld (list_to_map [("/", true); ("/tmp", true); ("/tmp/Test", true);
                        ("/tmp/Test/x", false); ("/tmpevil", true);
                        ("/tmpevil/data", false); ("/home", true);
                        ("/home/u", true); ("/home/u/proj", true);
                        ("/home/u/proj/.git", true); ("/home/u/proj/cmd", true)])
          [] [].

(** The registry [NewAppDirs("Test")] builds in the sample environment. *)
Definition sampleDirs : AppDirs :=
  match NewAppDirs unixEnv "Test" sampleWorld with
  | Done (Some (Ok a), _) => a
  | _ => emptyAppDirs
  end.

(** One row of the repository's [TestRemoveTemp]: a temp descriptor for
    [input] is assigned to the sample registry and removed. *)
Definition removeTempRow (input : string) : option error :=
  match NewDir unixEnv Temp "Test" [WithPath input] sampleWorld with
  | Done (Some (Ok d), w) =>
      match RemoveTemp unixEnv (Assign unixEnv sampleDirs d) EmptyString w with
      | Done (e, _) => Some e
      | Panic _ => None
      end
  | _ => None
  end.

(** The descriptor slot of a directory type. *)
Definition slot (a : AppDirs) (t : DirType) : option Dir :=
  if Z.eqb t Cache then cache a
  else if Z.eqb t Config then config a
  else if Z.eqb t Home then home a
  else if Z.eqb t Temp then temp a
  else if Z.eqb t Workspace then workspace a
  else None.

(** The descriptor [Assign] stores for [d]: [d] itself, or [d] with the
    default aliases of its type when it has none. *)
Definition installed (env : Env) (d : Dir) : Dir :=
  withDefaults (default [] (defaultAliases env (dirType d))) d.

(** The last descriptor of [ds] that satisfies [P]. *)
Definition lastWith (P : Dir -> Prop) `{!forall x, Decision (P x)} (ds : list Dir)
    : option Dir :=
  last (filter P ds).

(** A path element [Clean] keeps as it is: not empty, neither [.] nor [..],
    and free of separators. *)
Definition isPlain (s : string) : bool :=
  negb (String.eqb s EmptyString) && negb (String.eqb s ".")
  && negb (String.eqb s "..") && Nat.eqb (GoStrings.Count s filepath.Separator) 0.

(** The order [Parameterize] sorts into: no later item has a longer key. *)
Definition notShorter (x y : item) : Prop :=
  (String.length (key y) <= String.length (key x))%nat.

(** The entries of the reverse map as items, in one iteration order. *)
Definition itemsOf (order : list (string * string)) : list item :=
  map (fun kv => mkItem kv.1 kv.2) order.


(** The invocation name [Root] compares with the application name. *)
Definition commandName (env : Env) : string := snd (filepath.SplitPath (os_Args0 env)).

(** The first loop of [AppendAliases]. *)
Definition appendMissing (cur als : list string) : list string :=
  fold_left (fun cur a => if negb (exists_ cur a) then cur ++ [a] else cur) als cur.

(** The path the options hand to [NewDir]. *)
Definition suppliedPath (opts : list Option) : string :=
  opt_path (fold_left (fun acc o => apply o acc) opts (mkOptions EmptyString [])).

(** An environment whose cache and home lookups fail. *)
Definition brokenEnv : Env :=
  mkEnv false "/usr/local/bin/Test" (Ok "/home/u/proj")
        (Err "neither $XDG_CACHE_HOME nor $HOME are defined")
        (Err "$HOME is not defined") "/tmp".

(** A system call that only reads. *)
Definition isStat (c : syscall) : bool :=
  match c with
  | SysStat _ => true
  | _ => false
  end.

(** The clean absolute path with the elements [segs]. *)
Definition rootedAt (segs : list string) : string :=
  String filepath.Separator (GoStrings.Join segs filepath.Separator).

(** The directory with the elements [rev rsegs] and the directories above it,
    nearest first. *)
Fixpoint ancestorsRev (rsegs : list string) : list string :=
  rootedAt (rev rsegs)
  :: match rsegs with
     | [] => []
     | _ :: up => ancestorsRev up
     end.

Definition ancestorsOf (segs : list string) : list string := ancestorsRev (rev segs).

(** [dir] holds a directory named [.git]. *)
Definition holdsGit (t : gmap string bool) (dir : string) : bool :=
  match t !! filepath.Join2 dir ".git" with
  | Some true => true
  | _ => false
  end.

(** The nearest directory at or above [rootedAt segs] that holds a [.git]
    directory. *)
Definition nearestRepository (t : gmap string bool) (segs : list string) : result string :=
  match find (holdsGit t) (ancestorsOf segs) with
  | Some dir => Ok dir
  | None => Err "cannot identify workspace root (no .git repository found)"
  end.

(** The target of [RemoveTemp] and [RecreateTemp]. *)
Definition tempTarget (a : AppDirs) (subdir : string) : string :=
  filepath.Join2 (from_option path EmptyString (temp a)) subdir.

(* ====================================================================== *)
(** * Part II — properties *)
(* ====================================================================== *)

(** ** The standard library functions on their documented examples *)

Example Clean_rows :
  map filepath.Clean
      ["abc"; "abc/def"; "."; ".."; "../.."; "../../abc"; "/abc"; "/"; "";
       "abc/"; "./"; "../"; "/abc/"; "abc//def//ghi"; "//abc"; "//abc//";
       "abc/./def"; "/./abc/def"; "abc/."; "abc/def/ghi/../jkl";
       "abc/def/../ghi/../jkl"; "abc/def/.."; "abc/def/../.."; "/abc/def/../..";
       "abc/def/../../.."; "/abc/def/../../..";
       "abc/def/../../../ghi/jkl/../../../mno"; "/../abc"; "abc/./../def";
       "abc/../../././../def"]
  = ["abc"; "abc/def"; "."; ".."; "../.."; "../../abc"; "/abc"; "/"; ".";
     "abc"; "."; ".."; "/abc"; "abc/def/ghi"; "/abc"; "/abc";
     "abc/def"; "/abc/def"; "abc"; "abc/def/jkl";
     "abc/jkl"; "abc"; "."; "/";
     ".."; "/";
     "../../mno"; "/abc"; "def";
     "../../def"].
Proof. vm_compute. reflexivity. Qed.

Example Join_rows :
  map (fun ab => filepath.Join2 ab.1 ab.2)
      [("a", "b"); ("a", ""); ("", "b"); ("/", "a"); ("/", ""); ("a/", "b");
       ("a/", ""); ("", "")]
  = ["a/b"; "a"; "b"; "/a"; "/"; "a/b"; "a"; ""].
Proof. vm_compute. reflexivity. Qed.

Example SplitPath_rows :
  map filepath.SplitPath ["a/b"; "a/b/"; "a/"; "a"; "/"]
  = [("a/", "b"); ("a/b/", ""); ("a/", ""); ("", "a"); ("/", "")].
Proof. vm_compute. reflexivity. Qed.

Example Dir_rows :
  map filepath.Dir ["/."; "/"; "/foo"; "x/"; "abc"; "abc/def"; "a/b/.x"; ""; "."]
  = ["/"; "/"; "/"; "x"; "."; "abc"; "a/b"; "."; "."].
Proof. vm_compute. reflexivity. Qed.

Example Rel_rows :
  map (fun bt => filepath.Rel bt.1 bt.2)
      [("a/b", "a/b"); ("a/b/.", "a/b"); ("ab/cd", "ab/cde"); ("ab/cd", "ab/c");
       ("a/b", "a/b/c/d"); ("a/b", "a/b/../c"); ("a/b/c", "a/c/d"); ("a/b", "c/d");
       ("a/b/c/d", "a/b"); ("../../a/b", "../../a/b/c/d"); ("/a/b", "/a/b");
       ("/ab/cd", "/ab/cde"); ("/a/b", "/a/b/c/d"); ("/a/b/c", "/a/c/d");
       ("/a/b/c/d", "/a/b/"); ("/../../a/b", "/../../a/b/c/d"); (".", "a/b");
       (".", "..")]
  = map Ok
      ["."; "."; "../cde"; "../c";
       "c/d"; "../c"; "../../c/d"; "../../c/d";
       "../.."; "c/d"; ".";
       "../cde"; "c/d"; "../../c/d";
       "../.."; "c/d"; "a/b";
       ".."].
Proof. vm_compute. reflexivity. Qed.

Example Rel_errors :
  map (fun bt => filepath.Rel bt.1 bt.2) [("..", "."); ("..", "a"); ("a", "/a"); ("/a", "a")]
  = [Err "Rel: can't make . relative to .."; Err "Rel: can't make a relative to ..";
     Err "Rel: can't make /a relative to a"; Err "Rel: can't make a relative to /a"].
Proof. vm_compute. reflexivity. Qed.

Example strings_rows :
  GoStrings.Split "a/b//c" "/" = ["a"; "b"; ""; "c"]
  /\ GoStrings.Split "" "/" = [""]
  /\ GoStrings.ReplaceAll "oink oink oink" "oink" "moo" = "moo moo moo"
  /\ GoStrings.Replace "oink oink oink" "k" "ky" 2 = "oinky oinky oink"
  /\ GoStrings.ReplaceAll "aaa" "aa" "b" = "ba"
  /\ GoStrings.ReplaceAll "abc" "" "-" = "-a-b-c-"
  /\ GoStrings.TrimSuffix "/test/" "/" = "/test"
  /\ GoStrings.TrimSuffix "/test" "/" = "/test"
  /\ GoSort.Strings ["${PWD}"; "$workspaceRoot"; "~"; "$PWD"]
     = ["$PWD"; "$workspaceRoot"; "${PWD}"; "~"].
Proof. repeat split; vm_compute; reflexivity. Qed.

(** ** The repository's own test tables, replayed on the embedding *)

Example TestMakeAbsolute_rows :
  map (MakeAbsolute unixEnv sampleDirs "/home/u/proj")
      ["test"; "test/../test"; "$CACHE/test"; "${HOME}/test"; "$TMPDIR/test";
       "$workspaceRoot/test"; "${PWD}/test"; "$TEMPtest"; "/test"; "~/test"]
  = ["/home/u/proj/test"; "/home/u/proj/test"; "/home/u/.cache/Test/test";
     "/home/u/test"; "/tmp/Test/test"; "/home/u/proj/test"; "/home/u/proj/test";
     "/home/u/proj/$TEMPtest"; "/test"; "/home/u/test"].
Proof. vm_compute. reflexivity. Qed.

Example TestParameterize_rows :
  map (Parameterize sampleDirs "/home/u/proj")
      ["/home/u/proj/test"; "test"; "$TEMPtest"; "/home/u/.cache/Test/test";
       "/home/u/test"; "/tmp/Test/test"; "/test"; "/test/"]
  = ["$workspaceRoot/test"; "test"; "$TEMPtest"; "$CACHE/test"; "$HOME/test";
     "$TEMP/test"; "/test"; "/test"].
Proof. vm_compute. reflexivity. Qed.

Example TestMakeRelative_rows :
  (MakeRelative unixEnv sampleDirs "" "",
   MakeRelative unixEnv sampleDirs "/" "/test",
   MakeRelative unixEnv sampleDirs "/x" "/test") = (".", "test", "../test").
Proof. vm_compute. reflexivity. Qed.

Example TestRemoveTemp_rows :
  map removeTempRow ["/tmp/Test"; ""; "/tmp"; "/tmp/"; "/unsupported"]
  = [Some None; Some None;
     Some (Some "expected a subdirectory within the temp directory");
     Some (Some "expected a subdirectory within the temp directory");
     Some (Some "temp directory is considered unsafe")].
Proof. vm_compute. reflexivity. Qed.

Example TestAliases_rows :
  let d := mkDir Cache "/home/u/.cache/Test" ["a"; "b"; "c"] in
  NewDir unixEnv Cache "Test" [WithAliases ["a"; "b"; "c"]] sampleWorld
    = Done (Some (Ok d), sampleWorld)
  /\ Aliases (AppendAliases d ["d"]) = ["a"; "b"; "c"; "d"]
  /\ Aliases (RemoveAliases (AppendAliases d ["d"]) ["a"; "b"; "c"; "d"]) = [].
Proof. cbv zeta. repeat split; vm_compute; reflexivity. Qed.

Example TestNewDir_relative_path :
  NewDir unixEnv Cache "Test" [WithPath "test"] sampleWorld
  = Done (Some (Err "cannot process relative path: test"), sampleWorld).
Proof. reflexivity. Qed.

Example TestCreateTemp_rows :
  CreateTemp emptyAppDirs sampleWorld
    = Done (Some "cannot create temp directory, invalid state", sampleWorld)
  /\ exists w', CreateTemp sampleDirs sampleWorld = Done (None, w').
Proof. split; [reflexivity|eexists; vm_compute; reflexivity]. Qed.

Example TestRoot_from_source :
  exists w', Root unixEnv "go-workspace" sampleWorld = Done (Some (Ok "/home/u/proj"), w')
             /\ trace w' = [SysStat "/home/u/proj/.git"].
Proof. eexists. split; vm_compute; reflexivity. Qed.

(** ** [DirType.String] *)

(** C8 — [DirType.String()] yields "cache", "config", "home", "workspace" and
    "temp" for the five directory types and the empty string for every other
    integer, and it never panics. *)
Theorem String_names (d : DirType) :
  String_ d = Done (match d with
                    | 1 => "cache"
                    | 2 => "config"
                    | 3 => "home"
                    | 4 => "workspace"
                    | 5 => "temp"
                    | _ => EmptyString
                    end).
Proof.
  unfold String_, Cache, Temp.
  destruct (Z.ltb_spec d 1) as [Hlo|Hlo]; simpl.
  - destruct d as [|p|p]; try reflexivity.
    destruct p as [p|p|]; try lia.
  - destruct (Z.ltb_spec 5 d) as [Hhi|Hhi]; simpl.
    + destruct d as [|p|p]; try lia.
      do 3 (destruct p as [p|p|]; try lia; try reflexivity).
    + assert (Hc : d = 1 \/ d = 2 \/ d = 3 \/ d = 4 \/ d = 5) by lia.
      destruct Hc as [->|[->|[->|[->| ->]]]]; reflexivity.
Qed.

(** In the earlier revision the index is off by one: [Cache] reads the name
    of [Config] and [Temp] indexes past the array. *)
Lemma String_rev0_shifted :
  String_rev0 Cache = Done "config" /\ String_rev0 Temp = Panic "index out of range".
Proof. split; reflexivity. Qed.

(** ** The accessors *)

Lemma accessor_guarded (slot : option Dir) :
  (if bool_decide (slot ≠ None) then deref path slot else Done EmptyString)
  = Done (from_option path EmptyString slot).
Proof. destruct slot; reflexivity. Qed.

(** [Cache], [Home], [Temp] and [Workspace] return the stored path, or the
    empty string for an unset slot. *)
Lemma accessors_of_own_slot (a : AppDirs) :
  Cache_ a = Done (from_option path EmptyString (cache a))
  /\ Home_ a = Done (from_option path EmptyString (home a))
  /\ Temp_ a = Done (from_option path EmptyString (temp a))
  /\ Workspace_ a = Done (from_option path EmptyString (workspace a)).
Proof. repeat split; apply accessor_guarded. Qed.

(** What [Config] returns in each of the four combinations of its own slot
    and the cache slot. *)
Lemma Config_by_cases (a : AppDirs) :
  Config_ a = match cache a, config a with
              | None, _ => Done EmptyString
              | Some _, Some d => Done (path d)
              | Some _, None => Panic "invalid memory address or nil pointer dereference"
              end.
Proof. unfold Config_. destruct (cache a), (config a); reflexivity. Qed.

(** C1 — each accessor is meant to return the path of its own descriptor and
    the empty string when that descriptor is unset.  [Config] tests the cache
    slot instead: with only a cache descriptor assigned it panics instead of
    returning the empty string, and with only a config descriptor assigned it
    returns the empty string instead of the stored path. *)
Theorem Config_guard_tests_cache :
  let onlyCache := Assign unixEnv emptyAppDirs (mkDir Cache "/c/app" ["$CACHE"]) in
  let onlyConfig := Assign unixEnv emptyAppDirs (mkDir Config "/etc/app" ["$CONFIG"]) in
  config onlyCache = None
  /\ Config_ onlyCache = Panic "invalid memory address or nil pointer dereference"
  /\ config onlyConfig = Some (mkDir Config "/etc/app" ["$CONFIG"])
  /\ Config_ onlyConfig = Done EmptyString.
Proof. cbv zeta. repeat split; vm_compute; reflexivity. Qed.

(** ** The temp directory life cycle *)

(** C10 — with no temp descriptor assigned, [RemoveTemp] and [RecreateTemp]
    dereference the nil slot and panic, whatever the subdirectory, while
    [CreateTemp] returns its invalid-state error and leaves the world (tree
    and call log) as it was; with a temp descriptor assigned [RemoveTemp]
    always returns. *)
Theorem temp_slot_precondition (env : Env) (a : AppDirs) (subdir : string) (w : World) :
  (temp a = None ->
     RemoveTemp env a subdir w = Panic "invalid memory address or nil pointer dereference"
     /\ RecreateTemp env a subdir w = Panic "invalid memory address or nil pointer dereference"
     /\ CreateTemp a w = Done (Some "cannot create temp directory, invalid state", w))
  /\ (temp a <> None -> exists e w', RemoveTemp env a subdir w = Done (e, w')).
Proof.
  split.
  - intros Hnil. unfold RecreateTemp, RemoveTemp, CreateTemp, Temp_, bind, lift, deref.
    rewrite Hnil. simpl. repeat split; reflexivity.
  - intros Hset. destruct (temp a) as [d|] eqn:Ht; [|congruence].
    unfold RemoveTemp, bind, lift, deref, ret. rewrite Ht.
    destruct (String.eqb (path d) EmptyString); [eauto|].
    destruct (negb _); [eauto|].
    destruct (String.eqb _ _); [eauto|].
    unfold os_RemoveAll. destruct (existsb _ _); eauto.
Qed.

Lemma temp_slot_precondition_witness :
  RemoveTemp unixEnv emptyAppDirs "x" sampleWorld
    = Panic "invalid memory address or nil pointer dereference"
  /\ RecreateTemp unixEnv emptyAppDirs "x" sampleWorld
    = Panic "invalid memory address or nil pointer dereference"
  /\ CreateTemp emptyAppDirs sampleWorld
    = Done (Some "cannot create temp directory, invalid state", sampleWorld).
Proof.
  apply (proj1 (temp_slot_precondition unixEnv emptyAppDirs "x" sampleWorld)).
  reflexivity.
Defined.

(** ** [Root] *)

(** C9 — when the base name of the invocation path equals the application
    name, [Root] returns the working directory as it is and makes no system
    call: the world, call log included, is unchanged.  Whenever a call of
    [Root] does extend the call log, the two names differ. *)
Theorem Root_installed_binary (env : Env) (appName : string) (w : World) :
  (commandName env = appName ->
     forall dir, os_Getwd env = Ok dir ->
       Root env appName w = Done (Some (Ok dir), w))
  /\ (forall r w', Root env appName w = Done (r, w') ->
        trace w' <> trace w -> commandName env <> appName).
Proof.
  assert (Hfast : commandName env = appName ->
                  forall dir, os_Getwd env = Ok dir ->
                    Root env appName w = Done (Some (Ok dir), w)).
  { intros Hcmd dir Hwd. unfold Root. fold (commandName env).
    rewrite Hwd, Hcmd, String.eqb_refl. reflexivity. }
  split; [exact Hfast|].
  intros r w' Hrun Htrace Hcmd.
  destruct (os_Getwd env) as [dir|e] eqn:Hwd.
  - rewrite (Hfast Hcmd dir eq_refl) in Hrun. congruence.
  - unfold Root in Hrun. rewrite Hwd in Hrun. unfold ret in Hrun. congruence.
Qed.

Lemma Root_installed_binary_witness :
  Root unixEnv "Test" sampleWorld = Done (Some (Ok "/home/u/proj"), sampleWorld).
Proof.
  apply (proj1 (Root_installed_binary unixEnv "Test" sampleWorld)); reflexivity.
Defined.

(** ** [NewDir] *)



(** On Windows the home descriptor does without the tilde. *)
Example NewDir_home_windows :
  NewDir windowsEnv Home "Test" [] sampleWorld
  = Done (Some (Ok (mkDir Home "/home/u" ["$HOME"; "${HOME}"])), sampleWorld).
Proof. reflexivity. Qed.

(** Aliases that are supplied are kept as they are. *)
Example NewDir_custom_alias :
  NewDir unixEnv Workspace "Test" [WithPath "/mydir"; WithAliases ["$MYDIR"]] sampleWorld
  = Done (Some (Ok (mkDir Workspace "/mydir" ["$MYDIR"])), sampleWorld).
Proof. reflexivity. Qed.

(** ** [RemoveTemp] *)

(** A temp directory equal to the cleaned platform temp root is refused, and
    nothing is removed. *)
Lemma RemoveTemp_refuses_root (env : Env) (a : AppDirs) (d : Dir) (subdir : string)
    (w : World) :
  temp a = Some d -> path d <> EmptyString ->
  filepath.Join2 (path d) subdir = filepath.Clean (os_TempDir env) ->
  RemoveTemp env a subdir w
  = Done (Some "expected a subdirectory within the temp directory", w).
Proof.
  intros Ht Hp Heq. unfold RemoveTemp, bind, lift, deref, ret. rewrite Ht.
  apply String.eqb_neq in Hp. rewrite Hp, Heq.
  assert (Hpre : forall s, GoStrings.HasPrefix s s = true).
  { induction s as [|c s IH]; simpl; [reflexivity|].
    rewrite Ascii.eqb_refl. exact IH. }
  rewrite Hpre, String.eqb_refl. reflexivity.
Qed.

(** A target that does not start with the text of the cleaned temp root is
    refused, and nothing is removed. *)
Lemma RemoveTemp_refuses_other_prefix (env : Env) (a : AppDirs) (d : Dir)
    (subdir : string) (w : World) :
  temp a = Some d -> path d <> EmptyString ->
  GoStrings.HasPrefix (filepath.Join2 (path d) subdir)
                      (filepath.Clean (os_TempDir env)) = false ->
  RemoveTemp env a subdir w = Done (Some "temp directory is considered unsafe", w).
Proof.
  intros Ht Hp Hpre. unfold RemoveTemp, bind, lift, deref, ret. rewrite Ht.
  apply String.eqb_neq in Hp. rewrite Hp, Hpre. reflexivity.
Qed.

(** The removal is attempted exactly when the text of the cleaned temp root
    is a prefix of the target and differs from it. *)
Lemma RemoveTemp_attempts (env : Env) (a : AppDirs) (d : Dir) (subdir : string)
    (w : World) :
  temp a = Some d -> path d <> EmptyString ->
  GoStrings.HasPrefix (filepath.Join2 (path d) subdir)
                      (filepath.Clean (os_TempDir env)) = true ->
  filepath.Join2 (path d) subdir <> filepath.Clean (os_TempDir env) ->
  RemoveTemp env a subdir w
  = (let* e := os_RemoveAll (filepath.Join2 (path d) subdir) in ret e) w.
Proof.
  intros Ht Hp Hpre Hne. unfold RemoveTemp, bind, lift, deref, ret. rewrite Ht.
  apply String.eqb_neq in Hp. apply String.eqb_neq in Hne.
  rewrite Hp, Hpre, Hne. simpl.
  destruct (os_RemoveAll _ w) as [[[msg|] w']|]; reflexivity.
Qed.

(** C2 — the failsafe of [RemoveTemp] is meant to refuse every target outside
    the platform temp root.  It compares text, not path elements: with the
    temp root /tmp and the temp descriptor /tmpevil, a sibling of the root and
    no subdirectory of it, the call is not refused and removes /tmpevil with
    everything below it. *)
Theorem RemoveTemp_accepts_sibling_of_root :
  let d := mkDir Temp "/tmpevil" defaultTemp in
  let a := Assign unixEnv sampleDirs d in
  let root := filepath.Clean (os_TempDir unixEnv) in
  let target := filepath.Join2 (path d) EmptyString in
  NewDir unixEnv Temp "Test" [WithPath "/tmpevil"] sampleWorld
    = Done (Some (Ok d), sampleWorld)
  /\ root = "/tmp" /\ target = "/tmpevil"
  /\ containedIn root target = false
  /\ properSubdir root target = false
  /\ exists w',
       RemoveTemp unixEnv a EmptyString sampleWorld = Done (None, w')
       /\ trace w' = [SysRemoveAll "/tmpevil"]
       /\ tree sampleWorld !! "/tmpevil/data" = Some false
       /\ tree w' !! "/tmpevil" = None
       /\ tree w' !! "/tmpevil/data" = None.
Proof.
  cbv zeta. repeat split; try (vm_compute; reflexivity).
  eexists. repeat split; vm_compute; reflexivity.
Qed.

(** ** [Assign] and the keyword maps *)

Lemma addAliases_later_reverse (p : string) (i : nat) (als : list string)
    (maps : gmap string string * gmap string string) :
  i <> 0%nat -> (addAliases p i als maps).2 = maps.2.
Proof.
  revert i maps. induction als as [|alias rest IH]; intros i maps Hi; [reflexivity|].
  simpl. rewrite IH by lia. simpl.
  destruct (Nat.eqb_spec i 0); [contradiction|reflexivity].
Qed.

Lemma addAliases_forward (p : string) (i : nat) (als : list string)
    (maps : gmap string string * gmap string string) (k : string) :
  (addAliases p i als maps).1 !! k
  = if decide (k ∈ als) then Some p else maps.1 !! k.
Proof.
  revert i maps. induction als as [|alias rest IH]; intros i maps.
  - simpl. destruct (decide (k ∈ [])) as [Hin|_]; [inversion Hin|reflexivity].
  - simpl. rewrite IH. simpl.
    destruct (decide (k ∈ rest)) as [Hin|Hnin].
    + rewrite decide_True by (right; exact Hin). reflexivity.
    + destruct (decide (k = alias)) as [->|Hne].
      * rewrite decide_True by left. apply lookup_insert_eq.
      * rewrite decide_False by (intros Hin; apply elem_of_cons in Hin as [?|?]; auto).
        apply lookup_insert_ne. congruence.
Qed.

(** One descriptor added to the maps: every alias maps forward to the path,
    and the first alias becomes the reverse entry of the path. *)
Lemma addDir_forward (maps : gmap string string * gmap string string) (d : Dir)
    (k : string) :
  (addDir maps d).1 !! k = if decide (k ∈ aliases d) then Some (path d) else maps.1 !! k.
Proof. apply addAliases_forward. Qed.

Lemma addDir_reverse (maps : gmap string string * gmap string string) (d : Dir)
    (p : string) :
  (addDir maps d).2 !! p
  = match aliases d with
    | first :: _ => if decide (p = path d) then Some first else maps.2 !! p
    | [] => maps.2 !! p
    end.
Proof.
  unfold addDir, Aliases. destruct (aliases d) as [|first rest]; [reflexivity|].
  simpl. rewrite addAliases_later_reverse by lia. simpl.
  destruct (decide (p = path d)) as [->|Hne].
  - apply lookup_insert_eq.
  - apply lookup_insert_ne. congruence.
Qed.

Lemma lastWith_cons (P : Dir -> Prop) `{!forall x, Decision (P x)} (d : Dir)
    (ds : list Dir) :
  lastWith P (d :: ds)
  = match lastWith P ds with
    | Some x => Some x
    | None => if decide (P d) then Some d else None
    end.
Proof.
  unfold lastWith. rewrite filter_cons.
  destruct (decide (P d)); [|destruct (last (filter P ds)); reflexivity].
  destruct (filter P ds) as [|x l] eqn:Hf; [reflexivity|].
  change (last (d :: x :: l)) with (last (x :: l)).
  destruct (last (x :: l)) eqn:Hl; [reflexivity|].
  apply last_None in Hl. discriminate.
Qed.

(** The maps after a run over the descriptors [ds]: for an alias the last
    descriptor listing it decides, for a path the last descriptor with that
    path and at least one alias. *)
Lemma fold_addDir_forward (ds : list Dir)
    (maps : gmap string string * gmap string string) (k : string) :
  (fold_left addDir ds maps).1 !! k
  = match lastWith (fun x => k ∈ aliases x) ds with
    | Some x => Some (path x)
    | None => maps.1 !! k
    end.
Proof.
  revert maps. induction ds as [|d ds IH]; intros maps; [reflexivity|].
  simpl. rewrite IH, lastWith_cons.
  destruct (lastWith _ ds); [reflexivity|].
  rewrite addDir_forward. destruct (decide (k ∈ aliases d)); reflexivity.
Qed.

Lemma fold_addDir_reverse (ds : list Dir)
    (maps : gmap string string * gmap string string) (p : string) :
  (fold_left addDir ds maps).2 !! p
  = match lastWith (fun x => path x = p /\ aliases x <> []) ds with
    | Some x => head (aliases x)
    | None => maps.2 !! p
    end.
Proof.
  revert maps. induction ds as [|d ds IH]; intros maps; [reflexivity|].
  simpl. rewrite IH, lastWith_cons.
  destruct (lastWith _ ds); [reflexivity|].
  rewrite addDir_reverse.
  destruct (aliases d) as [|first rest] eqn:Hals.
  - rewrite decide_False by (intros [_ ?]; congruence). reflexivity.
  - destruct (decide (p = path d)) as [->|Hne].
    + rewrite decide_True by (split; congruence). simpl. rewrite Hals. reflexivity.
    + rewrite decide_False by (intros [? _]; congruence). reflexivity.
Qed.

Lemma installed_of_type (env : Env) (d : Dir) (dflt : list string) :
  defaultAliases env (dirType d) = Some dflt -> installed env d = withDefaults dflt d.
Proof. intros H. unfold installed. rewrite H. reflexivity. Qed.

(** C6 — [Assign] stores the descriptor (with the default aliases when it has
    none) in the slot of its type and leaves the other slots alone.  If the
    slot was taken, both maps are rebuilt from nothing over the assigned
    descriptors in the order Cache, Config, Home, Temp, Workspace: an alias
    maps to the path of the last descriptor listing it, a path to the first
    alias of the last descriptor with that path.  If the slot was free, the
    old maps are extended: every alias of the descriptor maps forward to its
    path, its first alias becomes the reverse entry of its path, and every
    other entry is kept. *)
Theorem Assign_keyword_maps (env : Env) (a : AppDirs) (d : Dir) :
  1 <= dirType d <= 5 ->
  let d' := installed env d in
  let a' := Assign env a d in
  slot a' (dirType d) = Some d'
  /\ (forall t, t <> dirType d -> slot a' t = slot a t)
  /\ registered a' = omap (slot a') [Cache; Config; Home; Temp; Workspace]
  /\ (slot a (dirType d) <> None ->
        (forall k, keywords a' !! k
                   = path <$> lastWith (fun x => k ∈ aliases x) (registered a'))
        /\ (forall p, keywordsReverse a' !! p
                      = lastWith (fun x => path x = p /\ aliases x <> []) (registered a')
                        ≫= (fun x => head (aliases x))))
  /\ (slot a (dirType d) = None ->
        (forall k, keywords a' !! k
                   = if decide (k ∈ aliases d') then Some (path d') else keywords a !! k)
        /\ (forall p, keywordsReverse a' !! p
                      = match aliases d' with
                        | first :: _ =>
                            if decide (p = path d') then Some first
                            else keywordsReverse a !! p
                        | [] => keywordsReverse a !! p
                        end)).
Proof.
  intros Hty d' a'.
  assert (Hrebuild : forall b : AppDirs,
             (forall k, keywords (initKeywords b) !! k
                        = path <$> lastWith (fun x => k ∈ aliases x)
                                     (registered (initKeywords b)))
             /\ (forall p, keywordsReverse (initKeywords b) !! p
                           = lastWith (fun x => path x = p /\ aliases x <> [])
                               (registered (initKeywords b))
                             ≫= (fun x => head (aliases x)))).
  { intros b. split; intros x; simpl.
    - rewrite fold_addDir_forward. change (registered (initKeywords b)) with (registered b).
      destruct (lastWith _ (registered b)); [reflexivity|apply lookup_empty].
    - rewrite fold_addDir_reverse. change (registered (initKeywords b)) with (registered b).
      destruct (lastWith _ (registered b)); [reflexivity|apply lookup_empty]. }
  assert (Hcases : dirType d = 1 \/ dirType d = 2 \/ dirType d = 3
                   \/ dirType d = 4 \/ dirType d = 5) by lia.
  destruct a as [c g h t ws kw rv].
  assert (Hinst : exists dflt, defaultAliases env (dirType d) = Some dflt
                               /\ d' = withDefaults dflt d).
  { unfold d', installed.
    destruct Hcases as [Ht|[Ht|[Ht|[Ht|Ht]]]]; rewrite Ht; eexists; split; reflexivity. }
  destruct Hinst as (dflt & Hdflt & Hinst).
  destruct Hcases as [Ht|[Ht|[Ht|[Ht|Ht]]]];
    (subst a'; unfold Assign, slot; rewrite Ht in Hdflt |- *;
     injection Hdflt as <-;
     cbn [Z.eqb Pos.eqb Cache Config Home Temp Workspace];
     rewrite <- Hinst;
     cbn [cache config home temp workspace keywords keywordsReverse]).
  all: match goal with
       | |- context [bool_decide (?s ≠ None)] => destruct s as [old|]
       end.
  all: cbn [bool_decide decide_rel not_dec option_eq_None_dec];
       cbn [cache config home temp workspace keywords keywordsReverse].
  all: split; [reflexivity|].
  all: split;
       [intros t0 Hne; unfold Cache, Config, Home, Temp, Workspace;
        destruct (Z.eqb_spec t0 1) as [->|?]; [first [congruence|reflexivity]|];
        destruct (Z.eqb_spec t0 2) as [->|?]; [first [congruence|reflexivity]|];
        destruct (Z.eqb_spec t0 3) as [->|?]; [first [congruence|reflexivity]|];
        destruct (Z.eqb_spec t0 5) as [->|?]; [first [congruence|reflexivity]|];
        destruct (Z.eqb_spec t0 4) as [->|?]; [first [congruence|reflexivity]|];
        reflexivity|].
  all: split;
       [repeat match goal with x : option Dir |- _ => destruct x end; reflexivity|].
  all: split; intros Hslot; try congruence.
  all: first [apply Hrebuild
             |split; intros k; [apply addDir_forward|apply addDir_reverse]].
Qed.

Lemma Assign_keyword_maps_witness :
  slot (Assign unixEnv sampleDirs (mkDir Workspace "/mydir" ["$MYDIR"])) 4
  = Some (installed unixEnv (mkDir Workspace "/mydir" ["$MYDIR"])).
Proof.
  apply (proj1 (Assign_keyword_maps unixEnv sampleDirs
                  (mkDir Workspace "/mydir" ["$MYDIR"])
                  ltac:(unfold Workspace; simpl; lia))).
Defined.

(** The two ways differ in what they keep.  The README's reassignment of the
    workspace rebuilds the maps, so the aliases of the replaced workspace
    descriptor are gone; a first assignment only adds. *)
Example Assign_rebuild_drops_old_aliases :
  let a' := Assign unixEnv sampleDirs (mkDir Workspace "/mydir" ["$MYDIR"]) in
  keywords sampleDirs !! "$PWD" = Some "/home/u/proj"
  /\ keywords a' !! "$PWD" = None
  /\ keywords a' !! "$MYDIR" = Some "/mydir"
  /\ keywords a' !! "$CACHE" = Some "/home/u/.cache/Test"
  /\ Parameterize a' "/home/u/proj" "/mydir" = "$MYDIR".
Proof. cbv zeta. repeat split; vm_compute; reflexivity. Qed.

(** The defaults that [Assign] injects go through [AppendAliases] and come
    out sorted, so the reverse entry of such a workspace is [$PWD]. *)
Example Assign_sorts_injected_defaults :
  let a := Assign unixEnv emptyAppDirs (mkDir Workspace "/w" []) in
  workspace a = Some (mkDir Workspace "/w"
                        ["$PWD"; "$workspaceRoot"; "${PWD}"; "${workspaceRoot}"])
  /\ keywordsReverse a !! "/w" = Some "$PWD".
Proof. cbv zeta. split; vm_compute; reflexivity. Qed.

(** A descriptor whose type is none of the five is stored nowhere; its
    aliases are merged into the maps all the same. *)
Example Assign_unknown_type :
  let a := Assign unixEnv emptyAppDirs (mkDir 0 "/x" ["$X"]) in
  registered a = [] /\ keywords a !! "$X" = Some "/x"
  /\ keywordsReverse a !! "/x" = Some "$X".
Proof. cbv zeta. repeat split; vm_compute; reflexivity. Qed.

Example Assign_first_time_extends :
  let a1 := Assign unixEnv emptyAppDirs (mkDir Home "/home/u" ["$HOME"]) in
  let a2 := Assign unixEnv a1 (mkDir Workspace "/home/u" ["$HOME"; "$WS"]) in
  keywordsReverse a1 !! "/home/u" = Some "$HOME"
  /\ keywords a2 !! "$WS" = Some "/home/u"
  /\ keywords a2 !! "$HOME" = Some "/home/u"
  /\ registered a2 = [mkDir Home "/home/u" ["$HOME"]; mkDir Workspace "/home/u" ["$HOME"; "$WS"]].
Proof. cbv zeta. repeat split; vm_compute; reflexivity. Qed.

(** ** [MakeAbsolute] *)

Lemma substituteSegment_as_spec (kw : gmap string string) (result segment : string) :
  map_Forall (fun _ p => p <> EmptyString) kw ->
  substituteSegment kw result segment
  = filepath.Join2 result (substituteSegment_spec kw segment).
Proof.
  intros Hne. unfold substituteSegment, substituteSegment_spec.
  destruct (kw !! segment) as [p|] eqn:Hk; simpl.
  - apply Hne in Hk. apply String.eqb_neq in Hk. rewrite Hk. reflexivity.
  - reflexivity.
Qed.

Lemma fold_substituteSegment_as_spec (kw : gmap string string) (segments : list string)
    (acc : string) :
  map_Forall (fun _ p => p <> EmptyString) kw ->
  fold_left (substituteSegment kw) segments acc
  = fold_left filepath.Join2 (map (substituteSegment_spec kw) segments) acc.
Proof.
  intros Hne. revert acc. induction segments as [|s segments IH]; intros acc.
  - reflexivity.
  - simpl. rewrite substituteSegment_as_spec by exact Hne. apply IH.
Qed.

(** C4 — [MakeAbsolute] substitutes whole segments only: with every mapped
    path non-empty, it is the function that splits the input on the
    separator, replaces each segment that is a key of the forward map by the
    mapped path, keeps every other segment, and joins the pieces with
    [filepath.Join]; in particular a segment that is no key is joined as it
    is, whatever keys it contains as a proper substring. *)
Theorem MakeAbsolute_whole_segments (env : Env) (a : AppDirs) (basePath input : string) :
  map_Forall (fun _ p => p <> EmptyString) (keywords a) ->
  MakeAbsolute env a basePath input = MakeAbsolute_spec env a basePath input
  /\ (forall result segment,
        keywords a !! segment = None ->
        substituteSegment (keywords a) result segment = filepath.Join2 result segment)
  /\ (forall result segment p,
        keywords a !! segment = Some p ->
        substituteSegment (keywords a) result segment = filepath.Join2 result p).
Proof.
  intros Hne. split; [|split].
  - unfold MakeAbsolute, MakeAbsolute_spec.
    rewrite fold_substituteSegment_as_spec by exact Hne. reflexivity.
  - intros result segment Hk. rewrite substituteSegment_as_spec by exact Hne.
    unfold substituteSegment_spec. rewrite Hk. reflexivity.
  - intros result segment p Hk. rewrite substituteSegment_as_spec by exact Hne.
    unfold substituteSegment_spec. rewrite Hk. reflexivity.
Qed.

Lemma MakeAbsolute_whole_segments_witness :
  MakeAbsolute unixEnv sampleDirs "/home/u/proj" "$TEMP/$TEMPtest"
  = MakeAbsolute_spec unixEnv sampleDirs "/home/u/proj" "$TEMP/$TEMPtest".
Proof.
  apply (proj1 (MakeAbsolute_whole_segments unixEnv sampleDirs "/home/u/proj"
                  "$TEMP/$TEMPtest"
                  ltac:(refine (bool_decide_unpack _ _); vm_compute; exact I))).
Defined.

Example MakeAbsolute_keyword_inside_segment :
  MakeAbsolute unixEnv sampleDirs "/home/u/proj" "$TEMP/$TEMPtest" = "/tmp/Test/$TEMPtest".
Proof. vm_compute. reflexivity. Qed.

(** ** Facts about the [strings] functions *)

Module GoStringsFacts.
Import GoStrings.

Lemma append_cons (c : ascii) (x y : string) : String c x +:+ y = String c (x +:+ y).
Proof. reflexivity. Qed.

Lemma append_assoc (x y z : string) : (x +:+ y) +:+ z = x +:+ (y +:+ z).
Proof.
  induction x as [|c x IH]; [reflexivity|].
  rewrite !append_cons, IH. reflexivity.
Qed.

Lemma append_nil_r (x : string) : x +:+ EmptyString = x.
Proof.
  induction x as [|c x IH]; [reflexivity|].
  rewrite append_cons, IH. reflexivity.
Qed.

Lemma HasPrefix_refl (s : string) : HasPrefix s s = true.
Proof.
  induction s as [|c s IH]; simpl; [reflexivity|].
  rewrite Ascii.eqb_refl. exact IH.
Qed.

Lemma HasPrefix_nil (s : string) : HasPrefix s EmptyString = true.
Proof. destruct s; reflexivity. Qed.

Lemma HasPrefix_app (x t : string) : HasPrefix (x +:+ t) x = true.
Proof.
  induction x as [|c x IH]; simpl; [apply HasPrefix_nil|].
  rewrite Ascii.eqb_refl. exact IH.
Qed.

Lemma HasPrefix_length (s pre : string) :
  HasPrefix s pre = true -> (String.length pre <= String.length s)%nat.
Proof.
  revert s. induction pre as [|a pre IH]; intros [|b s]; simpl; try lia; try discriminate.
  intros H. apply andb_true_iff in H as [_ H]. apply IH in H. lia.
Qed.

Lemma HasPrefix_same_length (s pre : string) :
  HasPrefix s pre = true -> String.length pre = String.length s -> pre = s.
Proof.
  revert s. induction pre as [|a pre IH]; intros [|b s]; simpl; try discriminate; auto.
  intros H Hlen. apply andb_true_iff in H as [Hc H].
  apply Ascii.eqb_eq in Hc. subst b. f_equal. apply IH; [exact H|lia].
Qed.

Lemma Contains_length (s sub : string) :
  Contains s sub = true -> (String.length sub <= String.length s)%nat.
Proof.
  induction s as [|c s IH].
  - destruct sub; simpl; [lia|discriminate].
  - change (Contains (String c s) sub)
      with (HasPrefix (String c s) sub || Contains s sub).
    intros H. apply orb_true_iff in H as [H|H].
    + apply HasPrefix_length in H. exact H.
    + apply IH in H. simpl. lia.
Qed.

(** A text that contains another text and differs from it is longer. *)
Lemma Contains_proper_longer (s sub : string) :
  Contains s sub = true -> sub <> s -> (String.length sub < String.length s)%nat.
Proof.
  intros Hc Hne. destruct s as [|c s].
  - destruct sub; [congruence|discriminate].
  - change (Contains (String c s) sub)
      with (HasPrefix (String c s) sub || Contains s sub) in Hc.
    apply orb_true_iff in Hc as [H|H].
    + pose proof (HasPrefix_length _ _ H) as Hlen.
      destruct (Nat.eq_dec (String.length sub) (String.length (String c s))) as [Heq|Hneq].
      * exfalso. apply Hne. apply HasPrefix_same_length; assumption.
      * lia.
    + apply Contains_length in H. simpl. lia.
Qed.

Lemma Contains_app_l (x y sub : string) :
  Contains y sub = true -> Contains (x +:+ y) sub = true.
Proof.
  intros H. induction x as [|c x IH]; [exact H|].
  change (Contains (String c x +:+ y) sub)
    with (HasPrefix (String c (x +:+ y)) sub || Contains (x +:+ y) sub).
  rewrite IH. apply orb_true_r.
Qed.

Lemma Contains_nil (s : string) : Contains s EmptyString = true.
Proof. destruct s; reflexivity. Qed.

(** A text that starts with the byte [sep] and occurs in [x ++ y], where [x]
    is free of [sep], occurs in [y]. *)
Lemma Contains_skip_sepfree (sep : ascii) (x y sub : string) :
  Count x sep = 0%nat ->
  HasPrefix sub (String sep EmptyString) = true ->
  Contains (x +:+ y) sub = true -> Contains y sub = true.
Proof.
  intros Hx Hsub. induction x as [|c x IH]; [auto|].
  simpl in Hx. destruct (Ascii.eqb_spec c sep) as [->|Hc]; [discriminate|].
  change (Contains (String c x +:+ y) sub)
    with (HasPrefix (String c (x +:+ y)) sub || Contains (x +:+ y) sub).
  intros H. apply orb_true_iff in H as [H|H].
  - destruct sub as [|b sub]; [discriminate|]. simpl in Hsub, H.
    apply andb_true_iff in Hsub as [Hb _]. apply andb_true_iff in H as [Hb' _].
    apply Ascii.eqb_eq in Hb, Hb'. congruence.
  - apply IH; [exact Hx|exact H].
Qed.

(** *** [Split] and [Join] *)

Lemma Split_nonempty (s : string) (sep : ascii) : Split s sep <> [].
Proof.
  destruct s as [|c s]; simpl; [discriminate|].
  destruct (Ascii.eqb c sep); [discriminate|].
  destruct (Split s sep); discriminate.
Qed.

Lemma Split_cons_other (c : ascii) (s : string) (sep : ascii) :
  Ascii.eqb c sep = false ->
  exists h t, Split s sep = h :: t /\ Split (String c s) sep = String c h :: t.
Proof.
  intros Hc. simpl. rewrite Hc.
  destruct (Split s sep) as [|h t] eqn:Hs; [exfalso; eapply Split_nonempty; eauto|].
  eauto.
Qed.

Lemma Split_app (x y : string) (sep : ascii) :
  Split (x +:+ String sep y) sep
  = match Split x sep with
    | [] => Split y sep
    | _ => Split x sep ++ Split y sep
    end.
Proof.
  induction x as [|c x IH]; simpl.
  - rewrite Ascii.eqb_refl. reflexivity.
  - destruct (Ascii.eqb c sep) eqn:Hc.
    + rewrite IH. destruct (Split x sep) eqn:Hx; [exfalso; eapply Split_nonempty; eauto|].
      reflexivity.
    + rewrite IH. destruct (Split x sep) as [|h t] eqn:Hx;
        [exfalso; eapply Split_nonempty; eauto|].
      reflexivity.
Qed.

Lemma Split_app' (x y : string) (sep : ascii) :
  Split (x +:+ String sep y) sep = Split x sep ++ Split y sep.
Proof.
  rewrite Split_app. destruct (Split x sep) eqn:Hx; [|reflexivity].
  exfalso; eapply Split_nonempty; eauto.
Qed.

Lemma Split_sepfree (s : string) (sep : ascii) :
  Count s sep = 0%nat -> Split s sep = [s].
Proof.
  induction s as [|c s IH]; simpl; [reflexivity|].
  destruct (Ascii.eqb c sep); [discriminate|].
  intros H. rewrite IH by exact H. reflexivity.
Qed.

Lemma Split_elements_sepfree (s : string) (sep : ascii) :
  Forall (fun e => Count e sep = 0%nat) (Split s sep).
Proof.
  induction s as [|c s IH]; simpl.
  - repeat constructor.
  - destruct (Ascii.eqb c sep) eqn:Hc.
    + constructor; [reflexivity|exact IH].
    + destruct (Split s sep) as [|h t]; [repeat constructor; simpl; rewrite Hc; reflexivity|].
      inversion IH; subst. constructor; [simpl; rewrite Hc; assumption|assumption].
Qed.

Lemma Join_cons (e : string) (rest : list string) (sep : ascii) :
  rest <> [] -> Join (e :: rest) sep = e +:+ String sep (Join rest sep).
Proof. destruct rest; [congruence|reflexivity]. Qed.

Lemma Split_Join (elems : list string) (sep : ascii) :
  elems <> [] -> Forall (fun e => Count e sep = 0%nat) elems ->
  Split (Join elems sep) sep = elems.
Proof.
  induction elems as [|e rest IH]; [congruence|].
  intros _ Hall. inversion Hall as [|? ? He Hrest]; subst.
  destruct rest as [|e' rest'].
  - simpl. apply Split_sepfree. exact He.
  - rewrite Join_cons by discriminate. rewrite Split_app'.
    rewrite Split_sepfree by exact He. rewrite IH by (try discriminate; assumption).
    reflexivity.
Qed.

Lemma Join_Split (s : string) (sep : ascii) : Join (Split s sep) sep = s.
Proof.
  induction s as [|c s IH]; simpl; [reflexivity|].
  destruct (Ascii.eqb_spec c sep) as [->|Hc].
  - rewrite Join_cons by apply Split_nonempty. rewrite IH. reflexivity.
  - destruct (Split s sep) as [|h t] eqn:Hs; [exfalso; eapply Split_nonempty; eauto|].
    destruct t as [|h' t'].
    + simpl in IH |- *. congruence.
    + rewrite Join_cons by discriminate. rewrite Join_cons in IH by discriminate.
      rewrite <- IH. reflexivity.
Qed.

Lemma Join_app (l1 l2 : list string) (sep : ascii) :
  l1 <> [] -> l2 <> [] ->
  Join (l1 ++ l2) sep = Join l1 sep +:+ String sep (Join l2 sep).
Proof.
  intros H1 H2. induction l1 as [|e l1 IH]; [congruence|].
  destruct l1 as [|e' l1'].
  - simpl app. rewrite Join_cons by exact H2. reflexivity.
  - change ((e :: e' :: l1') ++ l2) with (e :: (e' :: l1') ++ l2).
    rewrite Join_cons by discriminate. rewrite IH by discriminate.
    rewrite (Join_cons e (e' :: l1')) by discriminate.
    rewrite append_assoc. reflexivity.
Qed.

End GoStringsFacts.

(** ** Facts about [Replace] and [TrimSuffix] *)

Module ReplaceFacts.
Import GoStrings GoStringsFacts.

Lemma Contains_cons_false (c : ascii) (s sub : string) :
  Contains (String c s) sub = false ->
  HasPrefix (String c s) sub = false /\ Contains s sub = false.
Proof.
  change (Contains (String c s) sub)
    with (HasPrefix (String c s) sub || Contains s sub).
  intros H. apply orb_false_iff in H. exact H.
Qed.

Lemma replaceScan_step (old new : string) (c : ascii) (s : string) :
  replaceScan old new None O (String c s)
  = if HasPrefix (String c s) old
    then new +:+ replaceScan old new None (Nat.pred (String.length old)) s
    else String c (replaceScan old new None O s).
Proof. reflexivity. Qed.

(** Where [old] does not occur, the scan copies the text. *)
Lemma replaceScan_absent (old new s : string) :
  Contains s old = false -> replaceScan old new None O s = s.
Proof.
  induction s as [|c s IH]; intros H; [reflexivity|].
  apply Contains_cons_false in H as [Hp Hc].
  rewrite replaceScan_step, Hp, IH by exact Hc. reflexivity.
Qed.

(** The bytes of a match are dropped. *)
Lemma replaceScan_skip (old new : string) (limit : option nat) (x t : string) :
  replaceScan old new limit (String.length x) (x +:+ t) = replaceScan old new limit O t.
Proof.
  induction x as [|c x IH]; [destruct t; reflexivity|].
  rewrite append_cons. simpl. exact IH.
Qed.

Lemma replaceScan_at_prefix (old new t : string) :
  old <> EmptyString ->
  replaceScan old new None O (old +:+ t) = new +:+ replaceScan old new None O t.
Proof.
  intros Hne. destruct old as [|c old]; [congruence|].
  rewrite append_cons, replaceScan_step.
  pose proof (HasPrefix_app (String c old) t) as Hp. rewrite append_cons in Hp.
  rewrite Hp. simpl String.length. simpl Nat.pred.
  rewrite replaceScan_skip. reflexivity.
Qed.

Lemma ReplaceAll_absent (s old new : string) :
  Contains s old = false -> ReplaceAll s old new = s.
Proof.
  intros H. unfold ReplaceAll, Replace. simpl.
  destruct (String.eqb old new); [reflexivity|].
  destruct (String.eqb_spec old EmptyString) as [->|_].
  - rewrite Contains_nil in H. discriminate.
  - apply replaceScan_absent. exact H.
Qed.

(** One occurrence, at the front. *)
Lemma ReplaceAll_front_once (old new t : string) :
  old <> EmptyString -> Contains t old = false ->
  ReplaceAll (old +:+ t) old new = new +:+ t.
Proof.
  intros Hne Ht. unfold ReplaceAll, Replace. simpl.
  destruct (String.eqb_spec old new) as [->|_]; [reflexivity|].
  apply String.eqb_neq in Hne. rewrite Hne.
  apply String.eqb_neq in Hne.
  rewrite replaceScan_at_prefix by exact Hne.
  rewrite replaceScan_absent by exact Ht. reflexivity.
Qed.

(** The zero item of [Parameterize] replaces nothing. *)
Lemma ReplaceAll_blank (s : string) : ReplaceAll s EmptyString EmptyString = s.
Proof. reflexivity. Qed.

Lemma trimSuffixScan_id (s : string) (sep : ascii) :
  (forall x, s <> x +:+ String sep EmptyString) ->
  trimSuffixScan s (String sep EmptyString) = s.
Proof.
  induction s as [|c s IH]; intros H; [reflexivity|].
  simpl. destruct (String.eqb_spec s (String sep EmptyString)) as [->|Hs].
  - exfalso. apply (H (String c EmptyString)). reflexivity.
  - rewrite IH; [reflexivity|].
    intros x ->. apply (H (String c x)). reflexivity.
Qed.

(** A text that does not end with the separator is left as it is. *)
Lemma TrimSuffix_id (s : string) (sep : ascii) :
  last (Split s sep) <> Some EmptyString ->
  TrimSuffix s (String sep EmptyString) = s.
Proof.
  intros Hlast.
  assert (H : forall x, s <> x +:+ String sep EmptyString).
  { intros x ->. apply Hlast. rewrite Split_app'. simpl.
    rewrite last_snoc. reflexivity. }
  unfold TrimSuffix. destruct (String.eqb_spec s (String sep EmptyString)) as [->|_].
  - exfalso. apply (H EmptyString). reflexivity.
  - apply trimSuffixScan_id. exact H.
Qed.

End ReplaceFacts.

(** ** Facts about [Clean] *)

Module CleanFacts.
Import GoStrings GoStringsFacts filepath.

Lemma isPlain_spec (s : string) :
  isPlain s = true ->
  s <> EmptyString /\ s <> "." /\ s <> ".." /\ Count s Separator = 0%nat.
Proof.
  unfold isPlain. intros H.
  repeat (apply andb_true_iff in H as [H ?]).
  repeat match goal with
         | Hn : negb _ = true |- _ => apply negb_true_iff, String.eqb_neq in Hn
         end.
  match goal with Hc : Nat.eqb _ _ = true |- _ => apply Nat.eqb_eq in Hc end.
  auto.
Qed.

Lemma isPlain_intro (s : string) :
  s <> EmptyString -> s <> "." -> s <> ".." -> Count s Separator = 0%nat ->
  isPlain s = true.
Proof.
  intros H1 H2 H3 H4. unfold isPlain.
  apply String.eqb_neq in H1, H2, H3. rewrite H1, H2, H3, H4. reflexivity.
Qed.

Lemma plain_not_abs (s t : string) : isPlain s = true -> IsAbs (s +:+ t) = false.
Proof.
  intros H. apply isPlain_spec in H as (Hne & _ & _ & Hc).
  destruct s as [|c s]; [congruence|]. rewrite append_cons.
  simpl in Hc. destruct (Ascii.eqb_spec c Separator) as [->|Hcs]; [discriminate|].
  unfold IsAbs.
  change (HasPrefix (String c (s +:+ t)) (String Separator EmptyString))
    with (Ascii.eqb Separator c && HasPrefix (s +:+ t) EmptyString).
  destruct (Ascii.eqb_spec Separator c); [congruence|reflexivity].
Qed.

Lemma IsAbs_rooted (x : string) : IsAbs (String Separator x) = true.
Proof.
  unfold IsAbs.
  change (HasPrefix (String Separator x) (String Separator EmptyString))
    with (Ascii.eqb Separator Separator && HasPrefix x EmptyString).
  rewrite HasPrefix_nil. reflexivity.
Qed.

Lemma IsAbs_inv (p : string) : IsAbs p = true -> exists x, p = String Separator x.
Proof.
  destruct p as [|c p]; [discriminate|]. unfold IsAbs.
  change (HasPrefix (String c p) (String Separator EmptyString))
    with (Ascii.eqb Separator c && HasPrefix p EmptyString).
  intros H. apply andb_true_iff in H as [H _]. apply Ascii.eqb_eq in H. subst c. eauto.
Qed.

Lemma cleanStep_plain (rooted : bool) (out : list string) (seg : string) :
  isPlain seg = true -> cleanStep rooted out seg = seg :: out.
Proof.
  intros H. apply isPlain_spec in H as (H1 & H2 & H3 & _).
  unfold cleanStep. apply String.eqb_neq in H1, H2, H3. rewrite H1, H2, H3. reflexivity.
Qed.

Lemma fold_cleanStep_plain (rooted : bool) (segs out : list string) :
  Forall (fun s => isPlain s = true) segs ->
  fold_left (cleanStep rooted) segs out = rev segs ++ out.
Proof.
  intros H. revert out. induction H as [|seg segs Hseg _ IH]; intros out; [reflexivity|].
  simpl. rewrite cleanStep_plain by exact Hseg. rewrite IH.
  rewrite <- app_assoc. reflexivity.
Qed.

Lemma plain_sepfree (segs : list string) :
  Forall (fun s => isPlain s = true) segs ->
  Forall (fun e => Count e Separator = 0%nat) segs.
Proof.
  intros H. eapply Forall_impl; [exact H|].
  intros s Hs. apply isPlain_spec in Hs. tauto.
Qed.

(** A rooted path made of plain elements is clean. *)
Lemma Clean_rooted_plain (segs : list string) :
  Forall (fun s => isPlain s = true) segs ->
  Clean (String Separator (Join segs Separator)) = String Separator (Join segs Separator).
Proof.
  intros H. unfold Clean. simpl String.eqb. cbv iota.
  rewrite IsAbs_rooted. cbv iota zeta.
  change (Split (String Separator (Join segs Separator)) Separator)
    with (EmptyString :: Split (Join segs Separator) Separator).
  destruct segs as [|s segs]; [reflexivity|].
  rewrite Split_Join by (try discriminate; apply plain_sepfree; exact H).
  change (fold_left (cleanStep true) (EmptyString :: s :: segs) [])
    with (fold_left (cleanStep true) (s :: segs) []).
  rewrite fold_cleanStep_plain by exact H.
  rewrite app_nil_r, rev_involutive. reflexivity.
Qed.

(** A relative path made of plain elements is clean. *)
Lemma Clean_relative_plain (segs : list string) :
  segs <> [] -> Forall (fun s => isPlain s = true) segs ->
  IsAbs (Join segs Separator) = false
  /\ Clean (Join segs Separator) = Join segs Separator.
Proof.
  intros Hne H. destruct segs as [|s segs]; [congruence|].
  assert (Hs : isPlain s = true) by (inversion H; assumption).
  assert (Habs : IsAbs (Join (s :: segs) Separator) = false).
  { destruct segs as [|s' segs'].
    - simpl. rewrite <- (append_nil_r s). apply plain_not_abs. exact Hs.
    - rewrite Join_cons by discriminate. apply plain_not_abs. exact Hs. }
  split; [exact Habs|].
  unfold Clean. rewrite Habs.
  destruct (String.eqb_spec (Join (s :: segs) Separator) EmptyString) as [He|_].
  - exfalso. apply isPlain_spec in Hs as (Hs & _). destruct segs.
    + simpl in He. congruence.
    + rewrite Join_cons in He by discriminate. destruct s; [congruence|discriminate].
  - cbv zeta. rewrite Split_Join by (try discriminate; apply plain_sepfree; exact H).
    rewrite fold_cleanStep_plain by exact H.
    rewrite app_nil_r, rev_involutive. reflexivity.
Qed.

Lemma cleanStep_rooted_keeps_plain (out : list string) (seg : string) :
  Count seg Separator = 0%nat ->
  Forall (fun s => isPlain s = true) out ->
  Forall (fun s => isPlain s = true) (cleanStep true out seg).
Proof.
  intros Hc Hout. unfold cleanStep.
  destruct (String.eqb_spec seg EmptyString) as [->|H1]; [exact Hout|].
  destruct (String.eqb_spec seg ".") as [->|H2]; [exact Hout|].
  simpl. destruct (String.eqb_spec seg "..") as [->|H3].
  - destruct out as [|top rest]; [constructor|].
    destruct (String.eqb top ".."); [exact Hout|].
    inversion Hout; assumption.
  - constructor; [apply isPlain_intro; assumption|exact Hout].
Qed.

(** What [Clean] makes of a rooted path: the separator and plain elements. *)
Lemma Clean_rooted_form (p : string) :
  IsAbs p = true ->
  exists out, Forall (fun s => isPlain s = true) out
              /\ Clean p = String Separator (Join out Separator).
Proof.
  intros Habs. unfold Clean. rewrite Habs.
  destruct (String.eqb_spec p EmptyString) as [->|_]; [discriminate|].
  cbv zeta. eexists. split; [|reflexivity].
  apply Forall_rev.
  assert (Hinv : forall segs out,
             Forall (fun e => Count e Separator = 0%nat) segs ->
             Forall (fun s => isPlain s = true) out ->
             Forall (fun s => isPlain s = true) (fold_left (cleanStep true) segs out)).
  { induction segs as [|seg segs IH]; intros out Hsegs Hout; [exact Hout|].
    inversion Hsegs; subst. simpl. apply IH; [assumption|].
    apply cleanStep_rooted_keeps_plain; assumption. }
  apply Hinv; [apply Split_elements_sepfree|constructor].
Qed.

(** [Clean] never returns the empty string. *)
Lemma Clean_nonempty (p : string) : Clean p <> EmptyString.
Proof.
  unfold Clean. destruct (String.eqb p EmptyString); [discriminate|].
  destruct (IsAbs p); [discriminate|]. cbv zeta.
  assert (Hinv : forall segs out,
             Forall (fun s => s <> EmptyString) out ->
             Forall (fun s => s <> EmptyString) (fold_left (cleanStep false) segs out)).
  { induction segs as [|seg segs IH]; intros out Hout; [exact Hout|].
    simpl. apply IH. unfold cleanStep.
    destruct (String.eqb_spec seg EmptyString) as [->|H1]; [exact Hout|].
    destruct (String.eqb seg "."); [exact Hout|]. simpl.
    destruct (String.eqb seg "..").
    - destruct out as [|top rest]; [repeat constructor; assumption|].
      destruct (String.eqb top ".."); [constructor; assumption|].
      inversion Hout; assumption.
    - constructor; assumption. }
  specialize (Hinv (Split p Separator) [] ltac:(constructor)).
  apply Forall_rev in Hinv.
  destruct (rev _) as [|s out]; [discriminate|].
  inversion Hinv as [|? ? Hs _]; subst.
  destruct out; simpl; [exact Hs|].
  destruct s; [congruence|discriminate].
Qed.

End CleanFacts.

(** ** Facts about the stable sort *)

Module SortFacts.
Import GoSort.

Section Insertion.
Context {A : Type} (less : A -> A -> bool).

(** Inserting splits the list in two and puts the element in between. *)
Lemma insertStable_split (x : A) (l : list A) :
  exists l1 l2, l = l1 ++ l2 /\ insertStable less x l = l1 ++ x :: l2.
Proof.
  induction l as [|y l IH]; simpl.
  - exists [], []. split; reflexivity.
  - destruct (less y x).
    + destruct IH as (l1 & l2 & -> & ->). exists (y :: l1), l2. split; reflexivity.
    + exists [], (y :: l). split; reflexivity.
Qed.

Lemma insertStable_perm (x : A) (l : list A) : insertStable less x l ≡ₚ x :: l.
Proof.
  destruct (insertStable_split x l) as (l1 & l2 & -> & ->).
  symmetry. apply Permutation_middle.
Qed.

Lemma SliceStable_perm (l : list A) : SliceStable less l ≡ₚ l.
Proof.
  induction l as [|x l IH]; simpl; [reflexivity|].
  rewrite insertStable_perm, IH. reflexivity.
Qed.

Lemma SliceStable_app (l1 l2 : list A) :
  SliceStable less (l1 ++ l2) = foldr (insertStable less) (SliceStable less l2) l1.
Proof. induction l1 as [|x l1 IH]; simpl; [reflexivity|]. rewrite IH. reflexivity. Qed.

End Insertion.

Lemma insertStable_sorted (x : item) (l : list item) :
  StronglySorted notShorter l -> StronglySorted notShorter (insertStable longerKey x l).
Proof.
  induction l as [|y l IH]; intros Hs; simpl.
  - repeat constructor.
  - apply StronglySorted_inv in Hs as [Hl Hy].
    unfold longerKey at 1. destruct (Nat.ltb_spec (String.length (key x)) (String.length (key y))).
    + constructor; [apply IH; exact Hl|].
      rewrite insertStable_perm. constructor; [unfold notShorter; lia|exact Hy].
    + constructor; [constructor; assumption|].
      constructor; [unfold notShorter; lia|].
      eapply Forall_impl; [exact Hy|]. unfold notShorter. intros z Hz. lia.
Qed.

Lemma SliceStable_sorted (l : list item) :
  StronglySorted notShorter (SliceStable longerKey l).
Proof.
  induction l as [|x l IH]; simpl; [constructor|].
  apply insertStable_sorted. exact IH.
Qed.

(** In a sorted list an item stands in front of every item with a strictly
    shorter key. *)
Lemma sorted_longer_first (l : list item) (x y : item) :
  StronglySorted notShorter l -> x ∈ l -> y ∈ l ->
  (String.length (key y) < String.length (key x))%nat ->
  exists l1 l2 l3, l = l1 ++ x :: l2 ++ y :: l3.
Proof.
  intros Hs Hx Hy Hlt.
  apply list_elem_of_split in Hx as (l1 & r & ->).
  apply elem_of_app in Hy as [Hy|Hy].
  - exfalso. apply StronglySorted_app in Hs as (Hcross & _ & _).
    specialize (Hcross y x Hy ltac:(left)). unfold notShorter in Hcross. lia.
  - apply elem_of_cons in Hy as [->|Hy]; [lia|].
    apply list_elem_of_split in Hy as (l2 & l3 & ->). eauto.
Qed.

(** The stable sort keeps the order of items whose keys have the same
    length. *)
Lemma insertStable_same_length (n : nat) (x : item) (l : list item) :
  StronglySorted notShorter l ->
  filter (fun i => String.length (key i) = n) (insertStable longerKey x l)
  = filter (fun i => String.length (key i) = n) (x :: l).
Proof.
  induction l as [|y l IH]; intros Hs; [reflexivity|].
  apply StronglySorted_inv in Hs as [Hl Hy]. simpl insertStable.
  unfold longerKey at 1.
  destruct (Nat.ltb_spec (String.length (key x)) (String.length (key y))) as [Hlt|Hge];
    [|reflexivity].
  rewrite filter_cons, IH by exact Hl. rewrite !filter_cons.
  destruct (decide (String.length (key y) = n)) as [Hyn|Hyn];
    destruct (decide (String.length (key x) = n)) as [Hxn|Hxn]; try reflexivity.
  lia.
Qed.

Lemma SliceStable_same_length (n : nat) (l : list item) :
  filter (fun i => String.length (key i) = n) (SliceStable longerKey l)
  = filter (fun i => String.length (key i) = n) l.
Proof.
  induction l as [|x l IH]; [reflexivity|].
  simpl SliceStable. rewrite insertStable_same_length by apply SliceStable_sorted.
  rewrite !filter_cons, IH. reflexivity.
Qed.

End SortFacts.

(** ** [Parameterize] *)

Section ParameterizeOrder.
Import GoStrings GoStringsFacts ReplaceFacts SortFacts.

Lemma substituteItem_blank (s : string) :
  substituteItem s (mkItem EmptyString EmptyString) = s.
Proof. apply ReplaceAll_blank. Qed.

(** The zero items that [make] puts in front of the entries do not change
    the outcome of the substitutions. *)
Lemma fold_substituteItem_blanks (n : nat) (l : list item) (s : string) :
  fold_left substituteItem
    (foldr (GoSort.insertStable longerKey) l (replicate n (mkItem EmptyString EmptyString))) s
  = fold_left substituteItem l s.
Proof.
  revert s. induction n as [|n IH]; intros s; [reflexivity|].
  simpl.
  destruct (insertStable_split longerKey (mkItem EmptyString EmptyString)
              (foldr (GoSort.insertStable longerKey) l
                     (replicate n (mkItem EmptyString EmptyString))))
    as (l1 & l2 & Hl & ->).
  rewrite fold_left_app. simpl. rewrite substituteItem_blank.
  rewrite <- fold_left_app, <- Hl. apply IH.
Qed.

Lemma orderedItems_fold (order : list (string * string)) (s : string) :
  fold_left substituteItem (orderedItems order) s
  = fold_left substituteItem (GoSort.SliceStable longerKey (itemsOf order)) s.
Proof.
  unfold orderedItems. rewrite SliceStable_app. apply fold_substituteItem_blanks.
Qed.

Lemma itemsOf_elem (m : gmap string string) (order : list (string * string)) (it : item) :
  iterationOf m order ->
  it ∈ GoSort.SliceStable longerKey (itemsOf order) <-> m !! key it = Some (value it).
Proof.
  intros Hiter. rewrite SliceStable_perm. unfold itemsOf. rewrite list_elem_of_fmap.
  split.
  - intros ([k v] & -> & Hin). simpl. rewrite Hiter in Hin.
    apply elem_of_map_to_list in Hin. exact Hin.
  - intros Hm. exists (key it, value it). split; [destruct it; reflexivity|].
    rewrite Hiter. apply elem_of_map_to_list. exact Hm.
Qed.

(** C5 — for every iteration order of the reverse map, [Parameterize]
    replaces, across the whole input, each path of the reverse map by its
    alias, once per entry and in descending order of path length; so of two
    registered paths where one properly contains the other, the longer is
    substituted first.  It then strips a trailing separator and, if what is
    left is not absolute, returns it relative to the base path, or cleaned
    when [filepath.Rel] fails. *)
Theorem Parameterize_longest_first (a : AppDirs) (order : list (string * string))
    (basePath input : string) :
  iterationOf (keywordsReverse a) order ->
  let subs := GoSort.SliceStable longerKey (itemsOf order) in
  ParameterizeWith order basePath input
    = relativeToBase basePath
        (fold_left (fun s o => ReplaceAll s (key o) (value o)) subs input)
  /\ subs ≡ₚ itemsOf (map_to_list (keywordsReverse a))
  /\ StronglySorted notShorter subs
  /\ (forall longer a2 shorter a1,
        keywordsReverse a !! longer = Some a2 ->
        keywordsReverse a !! shorter = Some a1 ->
        Contains longer shorter = true -> shorter <> longer ->
        exists l1 l2 l3,
          subs = l1 ++ mkItem longer a2 :: l2 ++ mkItem shorter a1 :: l3)
  /\ (forall s,
        relativeToBase basePath s
        = let t := TrimSuffix s (String filepath.Separator EmptyString) in
          if filepath.IsAbs t then t
          else match filepath.Rel basePath t with
               | Ok rel => rel
               | Err _ => filepath.Clean t
               end).
Proof.
  intros Hiter subs. repeat split.
  - unfold ParameterizeWith. rewrite orderedItems_fold. reflexivity.
  - unfold subs. rewrite SliceStable_perm. unfold itemsOf.
    apply Permutation_map. exact Hiter.
  - apply SliceStable_sorted.
  - intros longer a2 shorter a1 Hl Hs Hc Hne.
    apply sorted_longer_first.
    + apply SliceStable_sorted.
    + apply (itemsOf_elem _ _ (mkItem longer a2) Hiter). exact Hl.
    + apply (itemsOf_elem _ _ (mkItem shorter a1) Hiter). exact Hs.
    + simpl. apply Contains_proper_longer; assumption.
  - intros s. unfold relativeToBase. cbv zeta.
    destruct (filepath.IsAbs _); simpl; [reflexivity|].
    destruct (filepath.Rel _ _); reflexivity.
Qed.

End ParameterizeOrder.

Lemma Parameterize_longest_first_witness :
  ParameterizeWith (map_to_list (keywordsReverse sampleDirs)) "/home/u/proj"
                   "/home/u/proj/cmd"
  = relativeToBase "/home/u/proj"
      (fold_left (fun s o => GoStrings.ReplaceAll s (key o) (value o))
         (GoSort.SliceStable longerKey (itemsOf (map_to_list (keywordsReverse sampleDirs))))
         "/home/u/proj/cmd").
Proof.
  apply (proj1 (Parameterize_longest_first sampleDirs
                  (map_to_list (keywordsReverse sampleDirs))
                  "/home/u/proj" "/home/u/proj/cmd"
                  ltac:(unfold iterationOf; reflexivity))).
Defined.

(** The home directory contains the workspace; the workspace alias wins, in
    whichever order the map is walked. *)
Example Parameterize_nested_workspace :
  forall order, iterationOf (keywordsReverse sampleDirs) order ->
    map key (GoSort.SliceStable longerKey (itemsOf order))
    = ["/home/u/.cache/Test"; "/home/u/proj"; "/tmp/Test"; "/home/u"].
Proof.
  intros order Hiter.
  assert (Hsorted : StronglySorted notShorter (GoSort.SliceStable longerKey (itemsOf order)))
    by apply SortFacts.SliceStable_sorted.
  assert (Hperm : GoSort.SliceStable longerKey (itemsOf order)
                  ≡ₚ [mkItem "/home/u/.cache/Test" "$CACHE"; mkItem "/home/u/proj" "$workspaceRoot";
                      mkItem "/tmp/Test" "$TEMP"; mkItem "/home/u" "$HOME"]).
  { rewrite SortFacts.SliceStable_perm. unfold itemsOf. rewrite Hiter.
    vm_compute.
    etransitivity; [apply perm_swap|]. apply perm_skip, perm_swap. }
  assert (Heq : GoSort.SliceStable longerKey (itemsOf order)
                = [mkItem "/home/u/.cache/Test" "$CACHE"; mkItem "/home/u/proj" "$workspaceRoot";
                   mkItem "/tmp/Test" "$TEMP"; mkItem "/home/u" "$HOME"]).
  { apply (StronglySorted_unique_strong notShorter); [|exact Hsorted| |exact Hperm].
    - intros x1 x2 H1 H2. rewrite Hperm in H1. unfold notShorter.
      repeat match goal with
             | H : _ ∈ _ :: _ |- _ => apply elem_of_cons in H as [H|H]
             | H : _ ∈ [] |- _ => inversion H
             end;
        subst; simpl; intros; try reflexivity; lia.
    - unfold notShorter. repeat constructor; simpl; lia. }
  rewrite Heq. reflexivity.
Qed.

(** ** [Parameterize] followed by [MakeAbsolute] *)


(** A relative base path breaks the round trip as well. *)
Example roundtrip_fails_on_relative_base :
  Parameterize sampleDirs "a/b" "/home/u/.cache/Test/x" = "../../$CACHE/x"
  /\ MakeAbsolute unixEnv sampleDirs "a/b" "../../$CACHE/x" = "home/u/.cache/Test/x".
Proof. split; vm_compute; reflexivity. Qed.

(** A segment of the remainder that is itself a keyword is expanded on the
    way back. *)
Example roundtrip_fails_on_keyword_segment :
  Parameterize sampleDirs "/home/u/proj" "/home/u/docs/$TEMP" = "$HOME/docs/$TEMP"
  /\ MakeAbsolute unixEnv sampleDirs "/home/u/proj" "$HOME/docs/$TEMP"
     = "/home/u/docs/tmp/Test".
Proof. split; vm_compute; reflexivity. Qed.

(** Two descriptors that share their first alias: the forward map keeps the
    path written last, so the alias of the other path does not lead back. *)
Example roundtrip_fails_on_shared_alias :
  let a := Assign unixEnv (Assign unixEnv emptyAppDirs (mkDir Home "/h" ["$X"]))
                  (mkDir Workspace "/w" ["$X"]) in
  keywordsReverse a !! "/h" = Some "$X"
  /\ keywords a !! "$X" = Some "/w"
  /\ Parameterize a "/w" "/h/f" = "$X/f"
  /\ MakeAbsolute unixEnv a "/w" "$X/f" = "/w/f".
Proof. cbv zeta. repeat split; vm_compute; reflexivity. Qed.

Section RoundTrip.
Import GoStrings GoStringsFacts ReplaceFacts CleanFacts SortFacts filepath.

Variable env : Env.
Variable a : AppDirs.
Variables d alias rest : string.

Let p : string := d +:+ String Separator rest.
Let q : string := alias +:+ String Separator rest.

Hypothesis d_alias : keywordsReverse a !! d = Some alias.
Hypothesis alias_d : keywords a !! alias = Some d.
Hypothesis alias_plain : isPlain alias = true.
Hypothesis paths_abs : map_Forall (fun k _ => IsAbs k = true) (keywordsReverse a).
Hypothesis others_absent :
  map_Forall (fun k _ => k = d \/ Contains p k = false) (keywordsReverse a).
Hypothesis d_once : Contains (String Separator rest) d = false.
Hypothesis rest_literal :
  Forall (fun seg => keywords a !! seg = None) (Split rest Separator).
Hypothesis p_clean : Clean p = p.

Lemma d_abs : IsAbs d = true.
Proof. exact (paths_abs d alias d_alias). Qed.

(** A registered path occurs in the parameterized text only where it occurs
    in the remainder of the path. *)
Lemma occurs_in_q (k : string) :
  IsAbs k = true -> Contains q k = true -> Contains (String Separator rest) k = true.
Proof.
  intros Hk Hq. apply isPlain_spec in alias_plain as (_ & _ & _ & Hc).
  eapply Contains_skip_sepfree; [exact Hc|exact Hk|exact Hq].
Qed.

Lemma d_not_in_q : Contains q d = false.
Proof.
  destruct (Contains q d) eqn:Hq; [|reflexivity].
  apply occurs_in_q in Hq; [|exact d_abs]. congruence.
Qed.

Lemma substitute_d_in_p : substituteItem p (mkItem d alias) = q.
Proof.
  unfold substituteItem, p, q. simpl key. simpl value.
  apply ReplaceAll_front_once; [|exact d_once].
  intros Hd. pose proof d_abs as Habs. rewrite Hd in Habs. discriminate.
Qed.

Lemma substitute_d_in_q : substituteItem q (mkItem d alias) = q.
Proof. apply ReplaceAll_absent. exact d_not_in_q. Qed.

Lemma substitute_other (it : item) :
  keywordsReverse a !! key it = Some (value it) -> key it <> d ->
  substituteItem p it = p /\ substituteItem q it = q.
Proof.
  intros Hit Hne.
  destruct (others_absent _ _ Hit) as [?|Hp]; [contradiction|].
  split; apply ReplaceAll_absent; [exact Hp|].
  destruct (Contains q (key it)) eqn:Hq; [|reflexivity].
  apply occurs_in_q in Hq; [|exact (paths_abs _ _ Hit)].
  apply (Contains_app_l d) in Hq. fold p in Hq. congruence.
Qed.

Lemma item_of_d (it : item) :
  keywordsReverse a !! key it = Some (value it) -> key it = d -> it = mkItem d alias.
Proof.
  intros Hit Hk. destruct it as [k v]. simpl in *. subst k.
  rewrite d_alias in Hit. congruence.
Qed.

Lemma fold_from_q (l : list item) :
  Forall (fun it => keywordsReverse a !! key it = Some (value it)) l ->
  fold_left substituteItem l q = q.
Proof.
  induction 1 as [|it l Hit _ IH]; [reflexivity|].
  simpl. destruct (decide (key it = d)) as [Hk|Hk].
  - rewrite (item_of_d it Hit Hk), substitute_d_in_q. exact IH.
  - destruct (substitute_other it Hit Hk) as [_ ->]. exact IH.
Qed.

Lemma fold_from_p (l : list item) :
  Forall (fun it => keywordsReverse a !! key it = Some (value it)) l ->
  mkItem d alias ∈ l ->
  fold_left substituteItem l p = q.
Proof.
  induction 1 as [|it l Hit Hl IH]; intros Hin; [inversion Hin|].
  simpl. destruct (decide (key it = d)) as [Hk|Hk].
  - rewrite (item_of_d it Hit Hk), substitute_d_in_p. apply fold_from_q. exact Hl.
  - destruct (substitute_other it Hit Hk) as [-> _]. apply IH.
    apply elem_of_cons in Hin as [Heq|Hin]; [|exact Hin].
    subst it. simpl in Hk. congruence.
Qed.

(** The substitutions of [Parameterize] turn [p] into the alias followed by
    the remainder. *)
Lemma substituted (order : list (string * string)) :
  iterationOf (keywordsReverse a) order ->
  fold_left substituteItem (orderedItems order) p = q.
Proof.
  intros Hiter. rewrite orderedItems_fold. apply fold_from_p.
  - apply Forall_forall. intros it Hit. apply (itemsOf_elem _ _ it Hiter). exact Hit.
  - apply (itemsOf_elem _ _ (mkItem d alias) Hiter). exact d_alias.
Qed.

(** The shape of a clean path below [d]. *)
Lemma p_shape :
  exists pre,
    pre <> [] /\ Forall (fun s => isPlain s = true) pre
    /\ Forall (fun s => isPlain s = true) (Split rest Separator)
    /\ d = String Separator (Join pre Separator)
    /\ p = String Separator (Join (pre ++ Split rest Separator) Separator).
Proof.
  destruct (IsAbs_inv d d_abs) as [x Hd].
  assert (Hp : IsAbs p = true) by (unfold p; rewrite Hd, append_cons; apply IsAbs_rooted).
  destruct (Clean_rooted_form p Hp) as (out & Hout & Hclean).
  rewrite p_clean in Hclean.
  assert (Hsplit : Split p Separator = EmptyString :: Split x Separator ++ Split rest Separator).
  { unfold p. rewrite Split_app', Hd. reflexivity. }
  assert (Hne : out <> []).
  { intros ->. rewrite Hclean in Hsplit. simpl in Hsplit.
    injection Hsplit as Hsplit. symmetry in Hsplit.
    apply app_eq_unit in Hsplit as [[Hx _]|[_ Hr]]; eapply Split_nonempty; eauto. }
  assert (Hout' : out = Split x Separator ++ Split rest Separator).
  { rewrite Hclean in Hsplit.
    change (Split (String Separator (Join out Separator)) Separator)
      with (EmptyString :: Split (Join out Separator) Separator) in Hsplit.
    rewrite Split_Join in Hsplit by (try exact Hne; apply plain_sepfree; exact Hout).
    congruence. }
  exists (Split x Separator). rewrite Hout' in Hout. apply Forall_app in Hout as [Hpre Hrest].
  repeat split.
  - apply Split_nonempty.
  - exact Hpre.
  - exact Hrest.
  - rewrite Join_Split. exact Hd.
  - rewrite <- Hout'. exact Hclean.
Qed.

Lemma q_shape :
  Forall (fun s => isPlain s = true) (alias :: Split rest Separator)
  /\ Split q Separator = alias :: Split rest Separator
  /\ q = Join (alias :: Split rest Separator) Separator.
Proof.
  destruct p_shape as (pre & _ & _ & Hrest & _).
  assert (Hs : Split q Separator = alias :: Split rest Separator).
  { unfold q. rewrite Split_app'.
    rewrite Split_sepfree by (apply isPlain_spec in alias_plain; tauto). reflexivity. }
  repeat split.
  - constructor; [exact alias_plain|exact Hrest].
  - exact Hs.
  - rewrite <- Hs. symmetry. apply Join_Split.
Qed.

(** With an absolute base, [Parameterize] returns the substituted text. *)
Lemma relativeToBase_q (basePath : string) :
  IsAbs basePath = true -> relativeToBase basePath q = q.
Proof.
  intros Hbase. destruct q_shape as (Hplain & Hsplit & Hq).
  destruct (Clean_relative_plain (alias :: Split rest Separator) ltac:(discriminate) Hplain)
    as [Hrel Hclean].
  rewrite <- Hq in Hrel, Hclean.
  unfold relativeToBase.
  rewrite TrimSuffix_id.
  2:{ rewrite Hsplit. intros Hlast.
      apply last_Some in Hlast as (l' & Hl').
      assert (Hin : EmptyString ∈ alias :: Split rest Separator)
        by (rewrite Hl'; apply elem_of_app; right; left).
      rewrite Forall_forall in Hplain. specialize (Hplain _ Hin). discriminate. }
  rewrite Hrel. simpl negb. cbv iota.
  destruct (Clean_rooted_form basePath Hbase) as (out & _ & Hb).
  unfold Rel. rewrite Hb, Hclean.
  destruct (String.eqb_spec q (String Separator (Join out Separator))) as [Heq|_].
  { rewrite Heq, IsAbs_rooted in Hrel. discriminate. }
  change (String.eqb (String Separator (Join out Separator)) ".") with false. cbv iota.
  rewrite IsAbs_rooted, Hrel. reflexivity.
Qed.

Lemma substituteSegment_missing (result seg : string) :
  keywords a !! seg = None ->
  substituteSegment (keywords a) result seg = Join2 result seg.
Proof. intros H. unfold substituteSegment. rewrite H. reflexivity. Qed.

Lemma substituteSegment_key (result seg target : string) :
  keywords a !! seg = Some target -> target <> EmptyString ->
  substituteSegment (keywords a) result seg = Join2 result target.
Proof.
  intros H Hne. unfold substituteSegment. rewrite H. simpl default.
  apply String.eqb_neq in Hne. rewrite Hne. reflexivity.
Qed.

Lemma Join2_rooted (x b : string) :
  Join2 (String Separator x) b = Clean (String Separator x +:+ String Separator b).
Proof. reflexivity. Qed.

Lemma Join2_empty_rooted (x : string) :
  Join2 EmptyString (String Separator x) = Clean (String Separator x).
Proof. reflexivity. Qed.

(** Joining plain segments that are no keywords to a clean rooted path
    appends them. *)
Lemma fold_literal_segments (segs acc : list string) :
  Forall (fun s => isPlain s = true) segs ->
  Forall (fun seg => keywords a !! seg = None) segs ->
  acc <> [] -> Forall (fun s => isPlain s = true) acc ->
  fold_left (substituteSegment (keywords a)) segs (String Separator (Join acc Separator))
  = String Separator (Join (acc ++ segs) Separator).
Proof.
  intros Hplain. revert acc.
  induction Hplain as [|seg segs Hseg _ IH]; intros acc Hlit Hne Hacc.
  - rewrite app_nil_r. reflexivity.
  - inversion Hlit as [|? ? Hnone Hlit']; subst. simpl fold_left.
    assert (Hstep : substituteSegment (keywords a) (String Separator (Join acc Separator)) seg
                    = String Separator (Join (acc ++ [seg]) Separator)).
    { rewrite substituteSegment_missing by exact Hnone.
      rewrite Join2_rooted, append_cons.
      replace (Join acc Separator +:+ String Separator seg)
        with (Join (acc ++ [seg]) Separator)
        by (rewrite Join_app by (try discriminate; exact Hne); reflexivity).
      apply Clean_rooted_plain. apply Forall_app. split; [exact Hacc|].
      constructor; [exact Hseg|constructor]. }
    rewrite Hstep, IH.
    + rewrite <- app_assoc. reflexivity.
    + exact Hlit'.
    + destruct acc; discriminate.
    + apply Forall_app. split; [exact Hacc|]. constructor; [exact Hseg|constructor].
Qed.



End RoundTrip.



Example roundtrip_home_file :
  Parameterize sampleDirs "/home/u/proj" "/home/u/docs/a.txt" = "$HOME/docs/a.txt"
  /\ MakeAbsolute unixEnv sampleDirs "/home/u/proj" "$HOME/docs/a.txt" = "/home/u/docs/a.txt".
Proof. split; vm_compute; reflexivity. Qed.

(** ** Registries built with [NewDir] and [Assign] *)

Section BuiltRegistries.
Import CleanFacts.

(** A descriptor from [NewDir] has a cleaned, hence non-empty, path. *)
Lemma NewDir_path_nonempty (env : Env) (kind : DirType) (appName : string)
    (opts : list Option) (w w' : World) (d : Dir) :
  NewDir env kind appName opts w = Done (Some (Ok d), w') -> path d <> EmptyString.
Proof.
  unfold NewDir, bind. intros Hrun.
  match type of Hrun with
  | match ?init w with _ => _ end = _ => destruct (init w) as [[i w1]|why]; [|discriminate]
  end.
  destruct i as [[msg|[p [e|]]]|]; unfold ret, bind, lift in Hrun; try discriminate.
  - destruct (String_ kind); discriminate.
  - injection Hrun as <- _. simpl. apply Clean_nonempty.
Qed.

Lemma withDefaults_path (dflt : list string) (d : Dir) : path (withDefaults dflt d) = path d.
Proof. unfold withDefaults. destruct (Nat.eqb _ _); reflexivity. Qed.

Lemma addDir_values (P : string -> Prop) (maps : gmap string string * gmap string string)
    (d : Dir) :
  P (path d) -> map_Forall (fun _ v => P v) maps.1 ->
  map_Forall (fun _ v => P v) (addDir maps d).1.
Proof.
  intros Hd Hm k v Hk. rewrite addDir_forward in Hk.
  destruct (decide (k ∈ aliases d)); [congruence|]. exact (Hm k v Hk).
Qed.

Lemma fold_addDir_values (P : string -> Prop) (ds : list Dir)
    (maps : gmap string string * gmap string string) :
  Forall (fun d => P (path d)) ds -> map_Forall (fun _ v => P v) maps.1 ->
  map_Forall (fun _ v => P v) (fold_left addDir ds maps).1.
Proof.
  intros Hds. revert maps. induction Hds as [|d ds Hd _ IH]; intros maps Hm; [exact Hm|].
  simpl. apply IH. apply addDir_values; assumption.
Qed.

Lemma elem_of_option_list (o : option Dir) (x : Dir) : x ∈ option_list o <-> o = Some x.
Proof.
  destruct o as [y|]; simpl.
  - rewrite list_elem_of_singleton. split; congruence.
  - split; [intros H; inversion H|discriminate].
Qed.

Lemma registered_elem (a : AppDirs) (x : Dir) :
  x ∈ registered a
  <-> cache a = Some x \/ config a = Some x \/ home a = Some x
      \/ temp a = Some x \/ workspace a = Some x.
Proof. unfold registered. rewrite !elem_of_app, !elem_of_option_list. tauto. Qed.

(** What [Assign] does, whatever the directory type: it stores at most the
    given descriptor, its path unchanged, and either rebuilds the maps or
    adds the descriptor to them. *)
Lemma Assign_shape (env : Env) (a : AppDirs) (d : Dir) :
  exists d',
    path d' = path d
    /\ (forall x, x ∈ registered (Assign env a d) -> x = d' \/ x ∈ registered a)
    /\ (keywords (Assign env a d)
          = (fold_left addDir (registered (Assign env a d)) (∅, ∅)).1
        \/ keywords (Assign env a d) = (addDir (keywords a, keywordsReverse a) d').1).
Proof.
  unfold Assign.
  destruct (Z.eqb (dirType d) Cache);
    [|destruct (Z.eqb (dirType d) Config);
      [|destruct (Z.eqb (dirType d) Home);
        [|destruct (Z.eqb (dirType d) Temp);
          [|destruct (Z.eqb (dirType d) Workspace)]]]].
  all: try match goal with
           | |- context [bool_decide ?P] => destruct (bool_decide P)
           end.
  all: lazymatch goal with
       | |- context [Some (withDefaults ?t ?d0)] => exists (withDefaults t d0)
       | |- context [addDir _ ?d0] => exists d0
       end.
  all: split; [try apply withDefaults_path; reflexivity|].
  all: split; [|first [left; reflexivity|right; reflexivity]].
  all: intros x Hx; rewrite registered_elem in Hx; simpl in Hx;
       rewrite registered_elem;
       destruct Hx as [Hx|[Hx|[Hx|[Hx|Hx]]]];
       first [left; congruence|right; tauto].
Qed.

(** [Assign] keeps the forward map free of empty paths. *)
Lemma Assign_keeps_paths_nonempty (env : Env) (a : AppDirs) (d : Dir) :
  path d <> EmptyString ->
  Forall (fun x => path x <> EmptyString) (registered a) ->
  map_Forall (fun _ v => v <> EmptyString) (keywords a) ->
  Forall (fun x => path x <> EmptyString) (registered (Assign env a d))
  /\ map_Forall (fun _ v => v <> EmptyString) (keywords (Assign env a d)).
Proof.
  intros Hd Hreg Hkw.
  destruct (Assign_shape env a d) as (d' & Hpath & Hregs & Hmaps).
  assert (Hregs' : Forall (fun x => path x <> EmptyString) (registered (Assign env a d))).
  { apply Forall_forall. intros x Hx. destruct (Hregs x Hx) as [->|Hx']; [congruence|].
    rewrite Forall_forall in Hreg. apply Hreg. exact Hx'. }
  split; [exact Hregs'|].
  destruct Hmaps as [-> | ->].
  - apply (fold_addDir_values (fun v => v <> EmptyString)); [exact Hregs'|].
    apply map_Forall_empty.
  - apply (addDir_values (fun v => v <> EmptyString)); [congruence|exact Hkw].
Qed.

(** On a registry filled from empty by [Assign] with descriptors of non-empty
    path, [MakeAbsolute] is the segment-wise substitution of the
    specification. *)
Lemma MakeAbsolute_on_built_registry (env : Env) (ds : list Dir) (basePath input : string) :
  Forall (fun d => path d <> EmptyString) ds ->
  let a := fold_left (Assign env) ds emptyAppDirs in
  MakeAbsolute env a basePath input = MakeAbsolute_spec env a basePath input.
Proof.
  intros Hds a.
  assert (Hinv : Forall (fun x => path x <> EmptyString) (registered a)
                 /\ map_Forall (fun _ v => v <> EmptyString) (keywords a)).
  { subst a.
    assert (Hgen : forall a0,
               Forall (fun x => path x <> EmptyString) (registered a0) ->
               map_Forall (fun _ v => v <> EmptyString) (keywords a0) ->
               Forall (fun x => path x <> EmptyString)
                      (registered (fold_left (Assign env) ds a0))
               /\ map_Forall (fun _ v => v <> EmptyString)
                             (keywords (fold_left (Assign env) ds a0))).
    { induction Hds as [|d ds Hd _ IH]; intros a0 Hr Hk; [split; assumption|].
      simpl. destruct (Assign_keeps_paths_nonempty env a0 d Hd Hr Hk) as [Hr' Hk'].
      apply IH; assumption. }
    apply Hgen; [constructor|apply map_Forall_empty]. }
  destruct Hinv as [_ Hkw].
  unfold MakeAbsolute, MakeAbsolute_spec.
  rewrite fold_substituteSegment_as_spec by exact Hkw. reflexivity.
Qed.

End BuiltRegistries.

(** ** [Root] returns *)

Section RootReturns.
Import GoStrings GoStringsFacts CleanFacts filepath.

Lemma SplitPath_sepfree (x : string) :
  Count x Separator = 0%nat -> SplitPath x = (EmptyString, x).
Proof.
  induction x as [|c x IH]; [reflexivity|]. simpl.
  destruct (Ascii.eqb c Separator); [discriminate|].
  intros H. rewrite IH by exact H. reflexivity.
Qed.

(** [filepath.Split] cuts behind the last separator. *)
Lemma SplitPath_last (pre x : string) :
  Count x Separator = 0%nat ->
  SplitPath (pre +:+ String Separator x) = (pre +:+ String Separator EmptyString, x).
Proof.
  intros Hx. induction pre as [|c pre IH].
  - change (EmptyString +:+ String Separator x) with (String Separator x).
    change (EmptyString +:+ String Separator EmptyString) with (String Separator EmptyString).
    simpl SplitPath. rewrite (SplitPath_sepfree x Hx). reflexivity.
  - rewrite append_cons. simpl SplitPath. rewrite IH.
    assert (Hne : String.eqb (pre +:+ String Separator EmptyString) EmptyString = false)
      by (destruct pre; reflexivity).
    rewrite Hne. destruct (Ascii.eqb c Separator); reflexivity.
Qed.

Lemma Clean_rooted_trailing (segs : list string) :
  segs <> [] -> Forall (fun s => isPlain s = true) segs ->
  Clean (String Separator (Join segs Separator) +:+ String Separator EmptyString)
  = String Separator (Join segs Separator).
Proof.
  intros Hne H. rewrite append_cons. unfold Clean. simpl String.eqb. cbv iota.
  rewrite IsAbs_rooted. cbv iota zeta.
  change (Split (String Separator (Join segs Separator +:+ String Separator EmptyString))
                Separator)
    with (EmptyString
          :: Split (Join segs Separator +:+ String Separator EmptyString) Separator).
  rewrite Split_app'.
  rewrite (Split_Join segs) by (try exact Hne; apply plain_sepfree; exact H).
  change (fold_left (cleanStep true) (EmptyString :: segs ++ Split EmptyString Separator) [])
    with (fold_left (cleanStep true) (segs ++ [EmptyString]) []).
  rewrite fold_left_app, (fold_cleanStep_plain true segs []) by exact H.
  change (fold_left (cleanStep true) [EmptyString] (rev segs ++ [])) with (rev segs ++ []).
  rewrite app_nil_r, rev_involutive. reflexivity.
Qed.

(** The parent of a clean rooted path drops its last element. *)
Lemma Dir_rooted_plain (segs : list string) (x : string) :
  Forall (fun s => isPlain s = true) segs -> isPlain x = true ->
  Dir (String Separator (Join (segs ++ [x]) Separator))
  = String Separator (Join segs Separator).
Proof.
  intros Hsegs Hx. unfold Dir.
  assert (Hc : Count x Separator = 0%nat) by (apply isPlain_spec in Hx; tauto).
  destruct segs as [|s segs].
  - change (String Separator (Join ([] ++ [x]) Separator))
      with (EmptyString +:+ String Separator x).
    rewrite SplitPath_last by exact Hc. reflexivity.
  - rewrite Join_app by discriminate.
    change (String Separator (Join (s :: segs) Separator +:+ String Separator (Join [x] Separator)))
      with (String Separator (Join (s :: segs) Separator) +:+ String Separator x).
    rewrite SplitPath_last by exact Hc. cbn [fst].
    apply Clean_rooted_trailing; [discriminate|exact Hsegs].
Qed.

Lemma rootLoop_step (fuel : nat) (dir : string) (isRoot : bool) (w : World) :
  rootLoop (S fuel) dir isRoot w
  = let w1 := logCall (SysStat (Join2 dir ".git")) w in
    match tree w !! Join2 dir ".git" with
    | Some true => Done (Some (Ok dir), w1)
    | _ =>
        if isRoot then
          Done (Some (Err "cannot identify workspace root (no .git repository found)"), w1)
        else
          rootLoop fuel (Dir dir)
            (String.eqb (Dir dir) (VolumeName (Dir dir) +:+ String Separator EmptyString)
             || String.eqb (Dir dir) (String Separator EmptyString)) w1
    end.
Proof.
  simpl. unfold bind, os_Stat.
  destruct (tree w !! Join2 dir ".git") as [[|]|]; destruct isRoot; reflexivity.
Qed.

(** From a clean rooted directory the loop returns within two passes more
    than the directory has elements. *)
Lemma rootLoop_returns (fuel : nat) (segs : list string) (isRoot : bool) (w : World) :
  Forall (fun s => isPlain s = true) segs ->
  (isRoot = true \/ length segs + 2 <= fuel)%nat ->
  (0 < fuel)%nat ->
  exists r w', rootLoop fuel (String Separator (Join segs Separator)) isRoot w
               = Done (Some r, w').
Proof.
  revert segs isRoot w. induction fuel as [|fuel IH]; intros segs isRoot w Hplain Hfuel Hpos;
    [lia|].
  rewrite rootLoop_step. cbv zeta.
  destruct (tree w !! _) as [[|]|]; [eauto| |].
  all: destruct isRoot; [eauto|].
  all: destruct Hfuel as [?|Hfuel]; [discriminate|].
  all: destruct (list_eq_nil_dec segs) as [->|Hne].
  all: try (change (Dir (String Separator (Join [] Separator))) with (String Separator EmptyString);
            apply (IH [] true); [constructor|left; reflexivity|simpl in Hfuel; lia]).
  all: destruct (exists_last Hne) as (xs & x & ->).
  all: apply Forall_app in Hplain as [Hxs Hx]; inversion Hx; subst.
  all: rewrite Dir_rooted_plain by assumption.
  all: apply IH; [exact Hxs|right; rewrite length_app in Hfuel; simpl in Hfuel; lia
                 |rewrite length_app in Hfuel; simpl in Hfuel; lia].
Qed.

Lemma plain_elements_length (segs : list string) :
  Forall (fun s => isPlain s = true) segs ->
  (length segs <= String.length (Join segs Separator))%nat.
Proof.
  induction 1 as [|s segs Hs Hsegs IH]; [simpl; lia|].
  assert (Hlen : (1 <= String.length s)%nat).
  { apply isPlain_spec in Hs as (Hne & _). destruct s; [congruence|simpl; lia]. }
  destruct segs as [|s' segs]; [simpl; lia|].
  rewrite Join_cons by discriminate.
  assert (Happ : forall x y, String.length (x +:+ y) = (String.length x + String.length y)%nat).
  { induction x as [|c x IHx]; intros y; [reflexivity|].
    rewrite append_cons. simpl. rewrite IHx. reflexivity. }
  rewrite Happ.
  change (String.length (String Separator (Join (s' :: segs) Separator)))
    with (S (String.length (Join (s' :: segs) Separator))).
  change (length (s :: s' :: segs)) with (S (length (s' :: segs))). lia.
Qed.

(** With a clean absolute working directory, as [os.Getwd] reports it, [Root]
    always returns: the bound on the loop is never reached. *)
Lemma Root_returns (env : Env) (appName dir : string) (w : World) :
  os_Getwd env = Ok dir -> IsAbs dir = true -> Clean dir = dir ->
  exists r w', Root env appName w = Done (Some r, w').
Proof.
  intros Hwd Habs Hclean. unfold Root. rewrite Hwd.
  destruct (String.eqb _ appName); [unfold ret; eauto|].
  destruct (Clean_rooted_form dir Habs) as (segs & Hplain & Hform).
  rewrite Hclean in Hform. rewrite Hform.
  apply rootLoop_returns; [exact Hplain| |lia].
  right. pose proof (plain_elements_length segs Hplain). simpl String.length. lia.
Qed.

End RootReturns.

(* ====================================================================== *)
(** * Part III — further properties of the package *)
(* ====================================================================== *)

(** ** Aliases of a descriptor *)

Section AliasOperations.

Lemma exists_spec (arr : list string) (item : string) :
  exists_ arr item = true <-> item ∈ arr.
Proof.
  induction arr as [|a arr IH]; simpl.
  - split; [discriminate|intros H; inversion H].
  - destruct (String.eqb_spec a item) as [->|Hne].
    + split; [intros _; left|reflexivity].
    + rewrite IH. split; [intros H; right; exact H|].
      intros H. apply elem_of_cons in H as [H|H]; [congruence|exact H].
Qed.

Lemma appendMissing_elem (cur als : list string) (x : string) :
  x ∈ appendMissing cur als <-> x ∈ cur \/ x ∈ als.
Proof.
  unfold appendMissing. revert cur. induction als as [|a als IH]; intros cur; simpl.
  - split; [auto|intros [H|H]; [exact H|inversion H]].
  - rewrite IH. destruct (exists_ cur a) eqn:He; simpl.
    + apply exists_spec in He. rewrite elem_of_cons.
      split; [tauto|]. intros [H|[->|H]]; auto.
    + rewrite elem_of_app, list_elem_of_singleton, elem_of_cons. tauto.
Qed.

Lemma appendMissing_NoDup (cur als : list string) :
  NoDup cur -> NoDup (appendMissing cur als).
Proof.
  unfold appendMissing. revert cur. induction als as [|a als IH]; intros cur Hnd; simpl;
    [exact Hnd|].
  apply IH. destruct (exists_ cur a) eqn:He; simpl; [exact Hnd|].
  apply NoDup_app. split; [exact Hnd|]. split; [|apply NoDup_singleton].
  intros x Hx Hx'. apply list_elem_of_singleton in Hx'. subst x.
  apply exists_spec in Hx. congruence.
Qed.

Lemma appendMissing_present (cur als : list string) :
  Forall (fun a => a ∈ cur) als -> appendMissing cur als = cur.
Proof.
  unfold appendMissing. induction 1 as [|a als Ha _ IH]; simpl; [reflexivity|].
  apply exists_spec in Ha. rewrite Ha. simpl. exact IH.
Qed.

Lemma Strings_sorted (l : list string) : StronglySorted String.le (GoSort.Strings l).
Proof. apply StronglySorted_merge_sort; apply _. Qed.

Lemma Strings_perm (l : list string) : GoSort.Strings l ≡ₚ l.
Proof. apply merge_sort_Permutation. Qed.

Lemma Strings_of_sorted (l : list string) :
  StronglySorted String.le l -> GoSort.Strings l = l.
Proof.
  intros Hs. apply (StronglySorted_unique String.le); [apply Strings_sorted|exact Hs|].
  apply Strings_perm.
Qed.

(** X1 — [AppendAliases] leaves type and path alone; afterwards the aliases
    are in ascending byte order and are exactly the old aliases together with
    the given ones. *)
Theorem AppendAliases_sorted_union (d : Dir) (als : list string) :
  dirType (AppendAliases d als) = dirType d
  /\ path (AppendAliases d als) = path d
  /\ StronglySorted String.le (Aliases (AppendAliases d als))
  /\ (forall x, x ∈ Aliases (AppendAliases d als) <-> x ∈ Aliases d \/ x ∈ als).
Proof.
  repeat split; try reflexivity.
  - apply Strings_sorted.
  - unfold Aliases, AppendAliases. simpl. rewrite Strings_perm.
    intros H. apply (appendMissing_elem (aliases d) als x). exact H.
  - unfold Aliases, AppendAliases. simpl. rewrite Strings_perm.
    intros H. apply (appendMissing_elem (aliases d) als x). exact H.
Qed.

(** X2 — [AppendAliases] never introduces a duplicate: an alias list without
    repetition stays without repetition, whatever is appended (also when the
    arguments repeat an alias or name one that is present). *)
Theorem AppendAliases_no_duplicates (d : Dir) (als : list string) :
  NoDup (Aliases d) -> NoDup (Aliases (AppendAliases d als)).
Proof.
  intros Hnd. unfold Aliases, AppendAliases. simpl.
  rewrite Strings_perm. apply (appendMissing_NoDup (aliases d) als). exact Hnd.
Qed.

Lemma AppendAliases_no_duplicates_witness :
  NoDup (Aliases (AppendAliases (mkDir Cache "/c" ["b"; "a"]) ["a"; "c"; "c"])).
Proof.
  apply (AppendAliases_no_duplicates (mkDir Cache "/c" ["b"; "a"]) ["a"; "c"; "c"]).
  simpl. apply NoDup_cons. split; [|apply NoDup_singleton].
  intros H. apply list_elem_of_singleton in H. discriminate.
Defined.

(** X3 — appending the same aliases a second time changes nothing. *)
Theorem AppendAliases_idempotent (d : Dir) (als : list string) :
  AppendAliases (AppendAliases d als) als = AppendAliases d als.
Proof.
  unfold AppendAliases at 1. simpl dirType. simpl path.
  change (aliases (AppendAliases d als))
    with (GoSort.Strings (appendMissing (aliases d) als)).
  fold (appendMissing (GoSort.Strings (appendMissing (aliases d) als)) als).
  rewrite appendMissing_present.
  - rewrite Strings_of_sorted by apply Strings_sorted. reflexivity.
  - apply Forall_forall. intros a Ha. rewrite Strings_perm.
    apply appendMissing_elem. right. exact Ha.
Qed.

Lemma removeFirst_absent (a : string) (l : list string) : a ∉ l -> removeFirst a l = l.
Proof.
  induction l as [|c l IH]; intros Hn; [reflexivity|]. simpl.
  destruct (String.eqb_spec a c) as [->|Hne]; [exfalso; apply Hn; left|].
  rewrite IH; [reflexivity|]. intros H. apply Hn. right. exact H.
Qed.

Lemma removeFirst_sublist (a : string) (l : list string) : sublist (removeFirst a l) l.
Proof.
  induction l as [|c l IH]; simpl; [constructor|].
  destruct (String.eqb a c); [apply sublist_cons; reflexivity|apply sublist_skip; exact IH].
Qed.

(** X4 — [RemoveAliases] ignores names that are no alias of the descriptor:
    if none of the names is present, the descriptor is unchanged. *)
Theorem RemoveAliases_unknown (d : Dir) (als : list string) :
  Forall (fun a => a ∉ Aliases d) als -> RemoveAliases d als = d.
Proof.
  intros H. destruct d as [t p l]. unfold RemoveAliases, Aliases in *. simpl in *.
  f_equal. induction H as [|a als Ha _ IH]; simpl; [reflexivity|].
  rewrite removeFirst_absent by exact Ha. exact IH.
Qed.

Lemma RemoveAliases_unknown_witness :
  RemoveAliases (mkDir Cache "/c" ["$CACHE"]) ["d"; "e"] = mkDir Cache "/c" ["$CACHE"].
Proof.
  apply (RemoveAliases_unknown (mkDir Cache "/c" ["$CACHE"]) ["d"; "e"]).
  repeat constructor; intros H; apply list_elem_of_singleton in H; discriminate.
Defined.

(** X5 — [RemoveAliases] only ever drops aliases, keeping the order of the
    ones that stay, and removing every alias of a descriptor by name leaves
    it without aliases (each name takes out one occurrence). *)
Theorem RemoveAliases_sublist_and_all (d : Dir) (als : list string) :
  sublist (Aliases (RemoveAliases d als)) (Aliases d)
  /\ Aliases (RemoveAliases d (Aliases d)) = [].
Proof.
  unfold RemoveAliases, Aliases. simpl. split.
  - generalize (aliases d). induction als as [|a als IH]; intros l; simpl; [reflexivity|].
    etransitivity; [apply IH|apply removeFirst_sublist].
  - induction (aliases d) as [|a l IH]; simpl; [reflexivity|].
    rewrite String.eqb_refl. exact IH.
Qed.

End AliasOperations.

(** ** More facts about [Clean] *)

Module CleanMore.
Import GoStrings GoStringsFacts CleanFacts filepath.

Lemma Clean_keeps_rooted (p : string) : IsAbs p = true -> IsAbs (Clean p) = true.
Proof.
  intros H. destruct (Clean_rooted_form p H) as (out & _ & ->). apply IsAbs_rooted.
Qed.

Lemma Clean_rooted_idempotent (p : string) :
  IsAbs p = true -> Clean (Clean p) = Clean p.
Proof.
  intros H. destruct (Clean_rooted_form p H) as (out & Hout & ->).
  apply Clean_rooted_plain. exact Hout.
Qed.

(** The element stack of a relative path: plain elements on top of a run of
    [..]. *)
Lemma cleanStep_relative_form (seg : string) (plains : list string) (n : nat) :
  Count seg Separator = 0%nat ->
  Forall (fun s => isPlain s = true) plains ->
  exists plains' n',
    Forall (fun s => isPlain s = true) plains'
    /\ cleanStep false (rev plains ++ replicate n "..") seg
       = rev plains' ++ replicate n' "..".
Proof.
  intros Hc Hp. unfold cleanStep.
  destruct (String.eqb_spec seg EmptyString) as [->|H1]; [eauto|].
  destruct (String.eqb_spec seg ".") as [->|H2]; [eauto|]. simpl.
  destruct (String.eqb_spec seg "..") as [->|H3].
  - destruct (rev plains) as [|top rest] eqn:Hrev.
    + destruct n as [|n]; simpl.
      * exists [], 1%nat. split; [constructor|reflexivity].
      * exists [], (S (S n)). split; [constructor|reflexivity].
    + assert (Htop : isPlain top = true).
      { assert (Hin : top ∈ rev plains) by (rewrite Hrev; left).
        apply list_elem_of_In, in_rev, list_elem_of_In in Hin.
        rewrite Forall_forall in Hp. apply Hp. exact Hin. }
      simpl. apply isPlain_spec in Htop as (_ & _ & Hdd & _).
      apply String.eqb_neq in Hdd. rewrite Hdd.
      exists (rev rest), n. split.
      * apply Forall_rev. apply Forall_rev in Hp. rewrite Hrev in Hp.
        inversion Hp; assumption.
      * rewrite rev_involutive. reflexivity.
  - exists (plains ++ [seg]), n. split.
    + apply Forall_app. split; [exact Hp|].
      constructor; [apply isPlain_intro; assumption|constructor].
    + rewrite rev_app_distr. reflexivity.
Qed.

Lemma fold_cleanStep_relative_form (segs plains : list string) (n : nat) :
  Forall (fun e => Count e Separator = 0%nat) segs ->
  Forall (fun s => isPlain s = true) plains ->
  exists plains' n',
    Forall (fun s => isPlain s = true) plains'
    /\ fold_left (cleanStep false) segs (rev plains ++ replicate n "..")
       = rev plains' ++ replicate n' "..".
Proof.
  intros Hsegs. revert plains n.
  induction Hsegs as [|seg segs Hseg _ IH]; intros plains n Hp; [eauto|].
  simpl. destruct (cleanStep_relative_form seg plains n Hseg Hp) as (pl & m & Hpl & ->).
  apply IH. exact Hpl.
Qed.

Lemma fold_cleanStep_dots (n : nat) (out : list string) :
  (out = [] \/ exists rest, out = ".." :: rest) ->
  fold_left (cleanStep false) (replicate n "..") out = replicate n ".." ++ out.
Proof.
  revert out. induction n as [|n IH]; intros out Hout; [reflexivity|].
  simpl. assert (Hstep : cleanStep false out ".." = ".." :: out).
  { destruct Hout as [->|(rest & ->)]; reflexivity. }
  rewrite Hstep, IH by (right; eauto).
  change (".." :: out) with ([".."] ++ out). rewrite app_assoc. f_equal.
  clear. induction n as [|n IHn]; [reflexivity|]. simpl. rewrite IHn. reflexivity.
Qed.

Lemma dots_plain_sepfree (n : nat) (plains : list string) :
  Forall (fun s => isPlain s = true) plains ->
  Forall (fun e => Count e Separator = 0%nat) (replicate n ".." ++ plains).
Proof.
  intros Hp. apply Forall_app. split; [|apply plain_sepfree; exact Hp].
  apply Forall_replicate. reflexivity.
Qed.

Lemma dots_plain_relative (n : nat) (plains : list string) :
  Forall (fun s => isPlain s = true) plains -> replicate n ".." ++ plains <> [] ->
  Join (replicate n ".." ++ plains) Separator <> EmptyString
  /\ IsAbs (Join (replicate n ".." ++ plains) Separator) = false.
Proof.
  intros Hp Hne.
  destruct n as [|n].
  - simpl in *. destruct (Clean_relative_plain plains Hne Hp) as [Habs _].
    split; [|exact Habs].
    destruct plains as [|s plains]; [congruence|]. inversion Hp as [|? ? Hs _]; subst.
    apply isPlain_spec in Hs as (Hs & _).
    destruct plains; [exact Hs|]. rewrite Join_cons by discriminate.
    destruct s; [congruence|discriminate].
  - simpl replicate. simpl app.
    destruct (replicate n ".." ++ plains) as [|y l]; split; try discriminate; reflexivity.
Qed.

(** A relative path made of a run of [..] and plain elements is clean. *)
Lemma Clean_relative_dots (n : nat) (plains : list string) :
  Forall (fun s => isPlain s = true) plains -> replicate n ".." ++ plains <> [] ->
  Clean (Join (replicate n ".." ++ plains) Separator)
  = Join (replicate n ".." ++ plains) Separator.
Proof.
  intros Hp Hne. destruct (dots_plain_relative n plains Hp Hne) as [Hnz Habs].
  unfold Clean. apply String.eqb_neq in Hnz. rewrite Hnz, Habs. cbv zeta.
  rewrite Split_Join by (try exact Hne; apply dots_plain_sepfree; exact Hp).
  rewrite fold_left_app, fold_cleanStep_dots by (left; reflexivity).
  rewrite fold_cleanStep_plain by exact Hp.
  rewrite app_nil_r, rev_app_distr, rev_involutive.
  assert (Hrev : rev (replicate n "..") = replicate n "..").
  { clear. induction n as [|n IH]; [reflexivity|]. simpl. rewrite IH.
    clear. induction n as [|n IH]; [reflexivity|]. simpl. rewrite IH. reflexivity. }
  rewrite Hrev.
  destruct (replicate n ".." ++ plains) eqn:Hl; [congruence|reflexivity].
Qed.

(** What [Clean] makes of a relative path. *)
Lemma Clean_relative_form (p : string) :
  IsAbs p = false ->
  Clean p = "."
  \/ exists n plains,
       Forall (fun s => isPlain s = true) plains
       /\ replicate n ".." ++ plains <> []
       /\ Clean p = Join (replicate n ".." ++ plains) Separator.
Proof.
  intros Habs. unfold Clean. rewrite Habs.
  destruct (String.eqb p EmptyString); [left; reflexivity|]. cbv zeta.
  destruct (fold_cleanStep_relative_form (Split p Separator) [] 0
              (Split_elements_sepfree p Separator) ltac:(constructor))
    as (plains & n & Hp & Hfold).
  simpl in Hfold. rewrite Hfold.
  rewrite rev_app_distr, rev_involutive.
  assert (Hrev : rev (replicate n "..") = replicate n "..").
  { clear. induction n as [|n IH]; [reflexivity|]. simpl. rewrite IH.
    clear. induction n as [|n IH]; [reflexivity|]. simpl. rewrite IH. reflexivity. }
  rewrite Hrev.
  destruct (replicate n ".." ++ plains) as [|s l] eqn:Hl; [left; reflexivity|].
  right. exists n, plains. rewrite Hl. repeat split; [exact Hp|discriminate].
Qed.

(** [Clean] is idempotent. *)
Lemma Clean_idempotent (p : string) : Clean (Clean p) = Clean p.
Proof.
  destruct (IsAbs p) eqn:Habs; [apply Clean_rooted_idempotent; exact Habs|].
  destruct (Clean_relative_form p Habs) as [->|(n & plains & Hp & Hne & ->)];
    [reflexivity|].
  apply Clean_relative_dots; assumption.
Qed.

End CleanMore.

(** ** More about [NewDir] *)

Section NewDirMore.
Import CleanFacts CleanMore.

(** X6 — with an explicit path [NewDir] asks the operating system nothing: a
    relative path is refused with "cannot process relative path: <path>", an
    absolute one gives a descriptor of the requested type whose path is the
    cleaned path; in both cases the world is as before. *)
Theorem NewDir_explicit_path (env : Env) (kind : DirType) (appName : string)
    (opts : list Option) (w : World) :
  suppliedPath opts <> EmptyString ->
  (filepath.IsAbs (suppliedPath opts) = false ->
     NewDir env kind appName opts w
     = Done (Some (Err ("cannot process relative path: " +:+ suppliedPath opts)), w))
  /\ (filepath.IsAbs (suppliedPath opts) = true ->
        exists d, NewDir env kind appName opts w = Done (Some (Ok d), w)
                  /\ dirType d = kind
                  /\ path d = filepath.Clean (suppliedPath opts)).
Proof.
  intros Hne. apply String.eqb_neq in Hne.
  unfold NewDir, suppliedPath in *. rewrite Hne. simpl negb. cbv iota.
  split; intros Habs; rewrite Habs; simpl negb; cbv iota; unfold bind, ret.
  - reflexivity.
  - eexists. split; [reflexivity|]. split; reflexivity.
Qed.

Lemma NewDir_explicit_path_witness :
  NewDir unixEnv Cache "Test" [WithPath "test"] sampleWorld
  = Done (Some (Err ("cannot process relative path: " +:+ suppliedPath [WithPath "test"])),
          sampleWorld).
Proof.
  apply (proj1 (NewDir_explicit_path unixEnv Cache "Test" [WithPath "test"] sampleWorld
                  ltac:(discriminate))).
  reflexivity.
Defined.

(** X7 — every descriptor [NewDir] returns has the requested type and a path
    that is not empty and is clean (cleaning it again changes nothing). *)
Theorem NewDir_result_clean (env : Env) (kind : DirType) (appName : string)
    (opts : list Option) (w w' : World) (d : Dir) :
  NewDir env kind appName opts w = Done (Some (Ok d), w') ->
  dirType d = kind /\ path d <> EmptyString /\ filepath.Clean (path d) = path d.
Proof.
  unfold NewDir, bind. intros Hrun.
  match type of Hrun with
  | match ?init w with _ => _ end = _ => destruct (init w) as [[i w1]|why]; [|discriminate]
  end.
  destruct i as [[msg|[p [e|]]]|]; unfold ret, bind, lift in Hrun; try discriminate.
  - destruct (String_ kind); discriminate.
  - injection Hrun as <- _. simpl.
    split; [reflexivity|]. split; [apply Clean_nonempty|apply Clean_idempotent].
Qed.

Lemma NewDir_result_clean_witness :
  dirType (mkDir Temp "/tmp/Test" defaultTemp) = Temp
  /\ path (mkDir Temp "/tmp/Test" defaultTemp) <> EmptyString
  /\ filepath.Clean (path (mkDir Temp "/tmp/Test" defaultTemp))
     = path (mkDir Temp "/tmp/Test" defaultTemp).
Proof.
  apply (NewDir_result_clean unixEnv Temp "Test" [] sampleWorld sampleWorld).
  reflexivity.
Defined.

(** X8 — without an explicit path, whatever goes wrong in the platform
    lookup or in [Root] reaches the caller as "cannot initialize directory: "
    followed by the name of the directory type; the original message is
    dropped. *)
Theorem NewDir_lookup_failure (env : Env) (kind : DirType) (appName : string)
    (opts : list Option) (w w' : World) (msg : string) :
  suppliedPath opts = EmptyString ->
  NewDir env kind appName opts w = Done (Some (Err msg), w') ->
  exists name, String_ kind = Done name
               /\ msg = "cannot initialize directory: " +:+ name.
Proof.
  intros Hp. unfold NewDir, suppliedPath in *. rewrite Hp. simpl negb. cbv iota.
  unfold bind. intros Hrun.
  destruct (defaultPath env kind appName w) as [[r w1]|why]; [|discriminate].
  unfold ret in Hrun. destruct r as [[p [e|]]|]; simpl in Hrun; try discriminate.
  unfold lift in Hrun. destruct (String_ kind) as [name|]; [|discriminate].
  injection Hrun as <- _. eauto.
Qed.

Lemma NewDir_lookup_failure_witness :
  exists name, String_ Home = Done name
               /\ "cannot initialize directory: home" = "cannot initialize directory: " +:+ name.
Proof.
  apply (NewDir_lookup_failure brokenEnv Home "Test" [] sampleWorld sampleWorld);
    reflexivity.
Defined.

End NewDirMore.

(** ** [AbsPath] and [MakeAbsolute] on an absolute base *)

Section AbsoluteBase.
Import GoStrings GoStringsFacts CleanFacts CleanMore filepath.

Lemma Join2_rooted_base (base x : string) :
  IsAbs base = true ->
  IsAbs (Join2 base x) = true /\ Clean (Join2 base x) = Join2 base x.
Proof.
  intros Hb. destruct (IsAbs_inv base Hb) as (b & ->).
  unfold Join2. simpl String.eqb. simpl negb. cbv iota. rewrite append_cons.
  split; [apply Clean_keeps_rooted, IsAbs_rooted|apply Clean_idempotent].
Qed.

Lemma AbsPath_rooted_base (env : Env) (base p : string) :
  IsAbs base = true ->
  IsAbs (AbsPath env base p) = true /\ Clean (AbsPath env base p) = AbsPath env base p.
Proof.
  intros Hb. unfold AbsPath.
  set (q := if negb (goos_windows env) && HasPrefix p "~" then _ else p).
  clearbody q. destruct (IsAbs q) eqn:Hq.
  - split; [apply Clean_keeps_rooted; exact Hq|apply Clean_idempotent].
  - destruct (Join2_rooted_base base q Hb) as [Habs Hclean].
    rewrite Hclean. split; [exact Habs|exact Hclean].
Qed.

Lemma AbsPath_rooted_path (env : Env) (base p : string) :
  IsAbs p = true -> AbsPath env base p = Clean p.
Proof.
  intros Hp. destruct (IsAbs_inv p Hp) as (x & ->). unfold AbsPath.
  change (HasPrefix (String Separator x) "~") with false.
  rewrite andb_false_r. cbv iota zeta. rewrite Hp. reflexivity.
Qed.

(** X9 — [AbsPath] returns the cleaned path itself when the path is absolute,
    whatever the base; and with an absolute base its result is always an
    absolute, clean path — also after tilde expansion and when the home
    lookup fails. *)
Theorem AbsPath_absolute (env : Env) (base p : string) :
  (IsAbs p = true -> AbsPath env base p = Clean p)
  /\ (IsAbs base = true ->
        IsAbs (AbsPath env base p) = true
        /\ Clean (AbsPath env base p) = AbsPath env base p).
Proof. split; [apply AbsPath_rooted_path|apply AbsPath_rooted_base]. Qed.

Lemma AbsPath_absolute_witness :
  IsAbs (AbsPath brokenEnv "/home/u/proj" "~/x/../y") = true
  /\ Clean (AbsPath brokenEnv "/home/u/proj" "~/x/../y")
     = AbsPath brokenEnv "/home/u/proj" "~/x/../y".
Proof.
  apply (proj2 (AbsPath_absolute brokenEnv "/home/u/proj" "~/x/../y")). reflexivity.
Defined.

(** X10 — on an absolute base [AbsPath] is idempotent: resolving a resolved
    path changes nothing. *)
Theorem AbsPath_idempotent (env : Env) (base p : string) :
  IsAbs base = true -> AbsPath env base (AbsPath env base p) = AbsPath env base p.
Proof.
  intros Hb. destruct (AbsPath_rooted_base env base p Hb) as [Habs Hclean].
  rewrite AbsPath_rooted_path by exact Habs. exact Hclean.
Qed.

Lemma AbsPath_idempotent_witness :
  AbsPath unixEnv "/home/u/proj" (AbsPath unixEnv "/home/u/proj" "~/a/./b")
  = AbsPath unixEnv "/home/u/proj" "~/a/./b".
Proof. apply (AbsPath_idempotent unixEnv "/home/u/proj" "~/a/./b"). reflexivity. Defined.

(** X11 — with an absolute base [MakeAbsolute] returns an absolute, clean
    path, for every input and every registry. *)
Theorem MakeAbsolute_absolute (env : Env) (a : AppDirs) (basePath input : string) :
  IsAbs basePath = true ->
  IsAbs (MakeAbsolute env a basePath input) = true
  /\ Clean (MakeAbsolute env a basePath input) = MakeAbsolute env a basePath input.
Proof. intros Hb. unfold MakeAbsolute. apply AbsPath_rooted_base. exact Hb. Qed.

Lemma MakeAbsolute_absolute_witness :
  IsAbs (MakeAbsolute unixEnv sampleDirs "/home/u/proj" "a/$TEMP/../b") = true
  /\ Clean (MakeAbsolute unixEnv sampleDirs "/home/u/proj" "a/$TEMP/../b")
     = MakeAbsolute unixEnv sampleDirs "/home/u/proj" "a/$TEMP/../b".
Proof.
  apply (MakeAbsolute_absolute unixEnv sampleDirs "/home/u/proj" "a/$TEMP/../b").
  reflexivity.
Defined.

End AbsoluteBase.

(** ** Expanding and contracting a keyword prefix *)

Section KeywordPrefix.
Import GoStrings GoStringsFacts ReplaceFacts CleanFacts CleanMore filepath.

(** The shape of a clean path that continues an absolute path [d]. *)
Lemma below_shape (d rest : string) :
  IsAbs d = true ->
  Clean (d +:+ String Separator rest) = d +:+ String Separator rest ->
  exists pre,
    pre <> [] /\ Forall (fun s => isPlain s = true) pre
    /\ Forall (fun s => isPlain s = true) (Split rest Separator)
    /\ d = String Separator (Join pre Separator)
    /\ d +:+ String Separator rest
       = String Separator (Join (pre ++ Split rest Separator) Separator).
Proof.
  intros Hd Hclean. destruct (IsAbs_inv d Hd) as [x Hx].
  set (p := d +:+ String Separator rest) in *.
  assert (Hp : IsAbs p = true) by (unfold p; rewrite Hx, append_cons; apply IsAbs_rooted).
  destruct (Clean_rooted_form p Hp) as (out & Hout & Hform).
  rewrite Hclean in Hform.
  assert (Hsplit : Split p Separator = EmptyString :: Split x Separator ++ Split rest Separator).
  { unfold p. rewrite Split_app', Hx. reflexivity. }
  assert (Hne : out <> []).
  { intros ->. rewrite Hform in Hsplit. simpl in Hsplit.
    injection Hsplit as Hsplit. symmetry in Hsplit.
    apply app_eq_unit in Hsplit as [[H1 _]|[_ H2]]; eapply Split_nonempty; eauto. }
  assert (Hout' : out = Split x Separator ++ Split rest Separator).
  { rewrite Hform in Hsplit.
    change (Split (String Separator (Join out Separator)) Separator)
      with (EmptyString :: Split (Join out Separator) Separator) in Hsplit.
    rewrite Split_Join in Hsplit by (try exact Hne; apply plain_sepfree; exact Hout).
    congruence. }
  exists (Split x Separator). rewrite Hout' in Hout. apply Forall_app in Hout as [Hpre Hrest].
  repeat split.
  - apply Split_nonempty.
  - exact Hpre.
  - exact Hrest.
  - rewrite Join_Split. exact Hx.
  - rewrite <- Hout'. exact Hform.
Qed.

(** X12 — [MakeAbsolute] expands a leading keyword: if the forward map sends
    the single segment [alias] to the absolute path [d], the text
    [alias/rest] becomes [d/rest], whatever the base path, provided [d/rest]
    is a clean path and no segment of [rest] is a keyword itself. *)
Theorem MakeAbsolute_expands_keyword (env : Env) (a : AppDirs)
    (basePath alias d rest : string) :
  keywords a !! alias = Some d ->
  Count alias Separator = 0%nat ->
  IsAbs d = true ->
  Clean (d +:+ String Separator rest) = d +:+ String Separator rest ->
  Forall (fun seg => keywords a !! seg = None) (Split rest Separator) ->
  MakeAbsolute env a basePath (alias +:+ String Separator rest)
  = d +:+ String Separator rest.
Proof.
  intros Hkw Halias Hd Hclean Hlit.
  destruct (below_shape d rest Hd Hclean) as (pre & Hpre_ne & Hpre & Hrest & Hdform & Hp).
  unfold MakeAbsolute.
  rewrite Split_app', Split_sepfree by exact Halias. simpl fold_left.
  assert (Hfirst : substituteSegment (keywords a) EmptyString alias = d).
  { rewrite (substituteSegment_key a _ _ d Hkw) by (rewrite Hdform; discriminate).
    rewrite Hdform at 1. rewrite Join2_empty_rooted.
    rewrite Clean_rooted_plain by exact Hpre. symmetry. exact Hdform. }
  assert (Hfold : fold_left (substituteSegment (keywords a)) (Split rest Separator)
                    (substituteSegment (keywords a) EmptyString alias)
                  = d +:+ String Separator rest).
  { rewrite Hfirst. rewrite Hdform at 1.
    rewrite fold_literal_segments by assumption. symmetry. exact Hp. }
  rewrite Hfold.
  assert (Hpabs : IsAbs (d +:+ String Separator rest) = true)
    by (rewrite Hp; apply IsAbs_rooted).
  rewrite Hpabs. simpl negb. rewrite andb_false_r. cbv iota zeta.
  rewrite AbsPath_rooted_path by exact Hpabs. exact Hclean.
Qed.

Lemma MakeAbsolute_expands_keyword_witness :
  MakeAbsolute unixEnv sampleDirs "/home/u/proj" ("${CACHE}" +:+ String Separator "logs/app")
  = "/home/u/.cache/Test" +:+ String Separator "logs/app".
Proof.
  apply (MakeAbsolute_expands_keyword unixEnv sampleDirs "/home/u/proj" "${CACHE}"
           "/home/u/.cache/Test" "logs/app").
  - vm_compute. reflexivity.
  - reflexivity.
  - reflexivity.
  - vm_compute. reflexivity.
  - refine (bool_decide_unpack _ _). vm_compute. exact I.
Defined.

(** X13 — [Parameterize] contracts a registered prefix: for an absolute base
    and a clean path [d/rest] whose prefix [d] has the plain reverse alias
    [alias], the result is [alias/rest] in every iteration order of the map,
    provided the registered paths are absolute, no other registered path
    occurs in the input and [d] does not occur again behind the prefix. *)
Theorem Parameterize_contracts_prefix (a : AppDirs) (order : list (string * string))
    (basePath d alias rest : string) :
  iterationOf (keywordsReverse a) order ->
  IsAbs basePath = true ->
  Clean (d +:+ String Separator rest) = d +:+ String Separator rest ->
  keywordsReverse a !! d = Some alias ->
  isPlain alias = true ->
  map_Forall (fun k _ => IsAbs k = true) (keywordsReverse a) ->
  map_Forall (fun k _ => k = d \/ Contains (d +:+ String Separator rest) k = false)
             (keywordsReverse a) ->
  Contains (String Separator rest) d = false ->
  ParameterizeWith order basePath (d +:+ String Separator rest)
  = alias +:+ String Separator rest.
Proof.
  intros Hiter Hbase Hclean Hd Hplain Habs Hothers Honce. unfold ParameterizeWith.
  rewrite (substituted a d alias rest Hd Hplain Habs Hothers Honce order Hiter).
  apply (relativeToBase_q a d alias rest Hd Hplain Habs Hclean basePath Hbase).
Qed.

Lemma Parameterize_contracts_prefix_witness :
  ParameterizeWith (map_to_list (keywordsReverse sampleDirs)) "/home/u/proj"
                   ("/tmp/Test" +:+ String Separator "run/1")
  = "$TEMP" +:+ String Separator "run/1".
Proof.
  apply (Parameterize_contracts_prefix sampleDirs
           (map_to_list (keywordsReverse sampleDirs)) "/home/u/proj"
           "/tmp/Test" "$TEMP" "run/1").
  - unfold iterationOf. reflexivity.
  - reflexivity.
  - vm_compute. reflexivity.
  - vm_compute. reflexivity.
  - reflexivity.
  - refine (bool_decide_unpack _ _). vm_compute. exact I.
  - refine (bool_decide_unpack _ _). vm_compute. exact I.
  - vm_compute. reflexivity.
Defined.

Lemma fold_substituteItem_absent (l : list item) (input : string) :
  Forall (fun it => Contains input (key it) = false) l ->
  fold_left substituteItem l input = input.
Proof.
  induction 1 as [|it l Hit _ IH]; [reflexivity|].
  simpl. unfold substituteItem at 2. rewrite ReplaceAll_absent by exact Hit. exact IH.
Qed.

Lemma TrimSuffix_keeps_rooted (x : string) :
  x <> EmptyString ->
  IsAbs (TrimSuffix (String Separator x) (String Separator EmptyString)) = true.
Proof.
  intros Hx. unfold TrimSuffix.
  assert (Hne : String.eqb (String Separator x) (String Separator EmptyString) = false).
  { apply String.eqb_neq. congruence. }
  rewrite Hne. simpl trimSuffixScan.
  destruct (String.eqb x (String Separator EmptyString)); apply IsAbs_rooted.
Qed.

(** X14 — an input in which no registered path occurs passes through the
    substitutions of [Parameterize] untouched; if it is absolute and not the
    root itself, the result is the input without its trailing separator. *)
Theorem Parameterize_without_match (a : AppDirs) (order : list (string * string))
    (basePath input : string) :
  iterationOf (keywordsReverse a) order ->
  map_Forall (fun k _ => Contains input k = false) (keywordsReverse a) ->
  ParameterizeWith order basePath input = relativeToBase basePath input
  /\ (IsAbs input = true -> input <> String Separator EmptyString ->
      ParameterizeWith order basePath input
      = TrimSuffix input (String Separator EmptyString)).
Proof.
  intros Hiter Habsent.
  assert (Hfold : fold_left substituteItem (orderedItems order) input = input).
  { rewrite orderedItems_fold. apply fold_substituteItem_absent.
    apply Forall_forall. intros it Hit.
    apply (itemsOf_elem _ _ it Hiter) in Hit. exact (Habsent _ _ Hit). }
  unfold ParameterizeWith. rewrite Hfold. split; [reflexivity|].
  intros Habs Hroot. destruct (IsAbs_inv input Habs) as (x & ->).
  unfold relativeToBase.
  rewrite TrimSuffix_keeps_rooted by congruence. reflexivity.
Qed.

Lemma Parameterize_without_match_witness :
  ParameterizeWith (map_to_list (keywordsReverse sampleDirs)) "/home/u/proj" "/opt/tool/"
  = relativeToBase "/home/u/proj" "/opt/tool/".
Proof.
  apply (proj1 (Parameterize_without_match sampleDirs
                  (map_to_list (keywordsReverse sampleDirs)) "/home/u/proj" "/opt/tool/"
                  ltac:(unfold iterationOf; reflexivity)
                  ltac:(refine (bool_decide_unpack _ _); vm_compute; exact I))).
Defined.

End KeywordPrefix.

(** ** [MakeRelative] on an absolute base *)

Section RelativeToAbsoluteBase.
Import GoStrings GoStringsFacts CleanFacts CleanMore filepath.

Lemma Split_rooted_plain (bs : list string) :
  bs <> [] -> Forall (fun s => isPlain s = true) bs ->
  Split (String Separator (Join bs Separator)) Separator = EmptyString :: bs.
Proof.
  intros Hne Hbs.
  change (Split (String Separator (Join bs Separator)) Separator)
    with (EmptyString :: Split (Join bs Separator) Separator).
  rewrite Split_Join by (try exact Hne; apply plain_sepfree; exact Hbs). reflexivity.
Qed.

Lemma Join_plain_nonempty (b : string) (bs : list string) :
  isPlain b = true -> Join (b :: bs) Separator <> EmptyString.
Proof.
  intros H. apply isPlain_spec in H as (Hne & _).
  destruct b as [|c b]; [congruence|].
  destruct bs; simpl; [discriminate|]. rewrite append_cons. discriminate.
Qed.

Lemma relElems_rooted (bs : list string) :
  Forall (fun s => isPlain s = true) bs ->
  relElems (String Separator (Join bs Separator)) = EmptyString :: bs.
Proof.
  intros Hbs. destruct bs as [|b bs]; [reflexivity|].
  unfold relElems.
  assert (H1 : String.eqb (String Separator (Join (b :: bs) Separator)) EmptyString = false)
    by reflexivity.
  assert (H2 : String.eqb (String Separator (Join (b :: bs) Separator))
                 (String Separator EmptyString) = false).
  { apply String.eqb_neq. intros H. injection H as H.
    apply (Join_plain_nonempty b bs); [|exact H].
    apply Forall_cons in Hbs as [Hb _]. exact Hb. }
  rewrite H1, H2. apply Split_rooted_plain; [discriminate|exact Hbs].
Qed.

(** [relStrip] removes the longest common prefix. *)
Lemma relStrip_spec (bs ts : list string) :
  exists c bs' ts',
    bs = c ++ bs' /\ ts = c ++ ts' /\ relStrip bs ts = (bs', ts')
    /\ match bs', ts' with b :: _, t :: _ => b <> t | _, _ => True end.
Proof.
  revert ts. induction bs as [|b bs IH]; intros ts.
  - exists [], [], ts. simpl. auto.
  - destruct ts as [|t ts].
    + exists [], (b :: bs), []. simpl. auto.
    + simpl. destruct (String.eqb_spec b t) as [->|Hne].
      * destruct (IH ts) as (c & bs' & ts' & -> & -> & Hs & Hd).
        exists (t :: c), bs', ts'. auto.
      * exists [], (b :: bs), (t :: ts). simpl. auto.
Qed.

(** Every [..] takes one plain element off the stack of [Clean]. *)
Lemma fold_cleanStep_up (xs stack : list string) :
  Forall (fun s => isPlain s = true) stack ->
  (length xs <= length stack)%nat ->
  fold_left (cleanStep true) (map (fun _ => "..") xs) stack = drop (length xs) stack.
Proof.
  revert stack. induction xs as [|x xs IH]; intros stack Hst Hlen; [reflexivity|].
  destruct stack as [|top stack]; [simpl in Hlen; lia|].
  apply Forall_cons in Hst as [Htop Hst]. simpl in Hlen.
  simpl map. simpl fold_left.
  assert (Hstep : cleanStep true (top :: stack) ".." = stack).
  { apply isPlain_spec in Htop as (_ & _ & Hdd & _).
    unfold cleanStep. simpl orb. cbv iota.
    apply String.eqb_neq in Hdd. rewrite Hdd. reflexivity. }
  rewrite Hstep. rewrite IH by (try exact Hst; lia). reflexivity.
Qed.

Lemma Clean_rooted_join (bs segs : list string) :
  Forall (fun s => isPlain s = true) bs ->
  segs <> [] -> Forall (fun e => Count e Separator = 0%nat) segs ->
  Clean (String Separator (Join bs Separator) +:+ String Separator (Join segs Separator))
  = String Separator
      (Join (rev (fold_left (cleanStep true) segs (rev bs))) Separator).
Proof.
  intros Hbs Hne Hsegs.
  assert (Hroot : IsAbs (String Separator (Join bs Separator)
                         +:+ String Separator (Join segs Separator)) = true)
    by (rewrite append_cons; apply IsAbs_rooted).
  unfold Clean. rewrite Hroot.
  assert (Hnz : String.eqb (String Separator (Join bs Separator)
                            +:+ String Separator (Join segs Separator)) EmptyString = false)
    by (rewrite append_cons; reflexivity).
  rewrite Hnz. cbv iota zeta.
  rewrite Split_app', (Split_Join segs) by assumption.
  rewrite fold_left_app.
  assert (Hfirst : fold_left (cleanStep true)
                     (Split (String Separator (Join bs Separator)) Separator) []
                   = rev bs).
  { destruct bs as [|b bs]; [reflexivity|].
    rewrite Split_rooted_plain by (try discriminate; exact Hbs).
    change (fold_left (cleanStep true) (EmptyString :: b :: bs) [])
      with (fold_left (cleanStep true) (b :: bs) []).
    rewrite fold_cleanStep_plain by exact Hbs. apply app_nil_r. }
  rewrite Hfirst. reflexivity.
Qed.

(** Going up over the rest of the base and down the rest of the target leads
    from the base to the target. *)
Lemma Join2_up_down (c bs' ts' : list string) :
  Forall (fun s => isPlain s = true) (c ++ bs') ->
  Forall (fun s => isPlain s = true) (c ++ ts') ->
  map (fun _ => "..") bs' ++ ts' <> [] ->
  Join2 (String Separator (Join (c ++ bs') Separator))
        (Join (map (fun _ => "..") bs' ++ ts') Separator)
  = String Separator (Join (c ++ ts') Separator).
Proof.
  intros Hbs Hts Hne. unfold Join2. simpl String.eqb. simpl negb. cbv iota.
  apply Forall_app in Hts as [Hc Hts'].
  rewrite Clean_rooted_join; try assumption.
  - rewrite fold_left_app, rev_app_distr.
    rewrite fold_cleanStep_up.
    + rewrite <- (length_rev bs'), drop_app_length.
      rewrite fold_cleanStep_plain by exact Hts'.
      rewrite rev_app_distr, !rev_involutive. reflexivity.
    + apply Forall_app in Hbs as [_ Hbs']. apply Forall_app. split.
      * apply Forall_rev. exact Hbs'.
      * apply Forall_rev. exact Hc.
    + rewrite length_app, !length_rev. lia.
  - apply Forall_app. split; [|apply plain_sepfree; exact Hts'].
    apply Forall_map. apply Forall_forall. intros ? _. reflexivity.
Qed.

(** [filepath.Rel] between two clean absolute paths never fails, and joining
    its result to the base gives the target. *)
Lemma Rel_rooted (bs ts : list string) :
  Forall (fun s => isPlain s = true) bs ->
  Forall (fun s => isPlain s = true) ts ->
  exists rel,
    Rel (String Separator (Join bs Separator)) (String Separator (Join ts Separator))
    = Ok rel
    /\ Join2 (String Separator (Join bs Separator)) rel
       = String Separator (Join ts Separator).
Proof.
  intros Hbs Hts. unfold Rel. rewrite !Clean_rooted_plain by assumption.
  destruct (String.eqb_spec (String Separator (Join ts Separator))
                            (String Separator (Join bs Separator))) as [Heq|Hneq].
  - exists ".". split; [reflexivity|]. rewrite Heq.
    unfold Join2. simpl String.eqb. simpl negb. cbv iota.
    change "."%string with (Join ["."%string] Separator) at 1.
    rewrite Clean_rooted_join by (try discriminate; try exact Hbs; repeat constructor).
    simpl fold_left.
    change (cleanStep true (rev bs) ".") with (rev bs).
    rewrite rev_involutive. reflexivity.
  - cbv zeta. simpl String.eqb. cbv iota. rewrite !IsAbs_rooted. simpl negb. cbv iota.
    rewrite !relElems_rooted by assumption.
    change (relStrip (EmptyString :: bs) (EmptyString :: ts)) with (relStrip bs ts).
    destruct (relStrip_spec bs ts) as (c & bs' & ts' & Hb & Ht & Hs & Hd).
    rewrite Hs. subst bs ts.
    exists (Join (map (fun _ => "..") bs' ++ ts') Separator). split.
    + destruct bs' as [|b bs'], ts' as [|t ts'].
      * congruence.
      * reflexivity.
      * rewrite app_nil_r. reflexivity.
      * assert (Hb : isPlain b = true).
        { apply Forall_app in Hbs as [_ Hbs]. apply Forall_cons in Hbs as [Hb _]. exact Hb. }
        apply isPlain_spec in Hb as (_ & _ & Hdd & _).
        apply String.eqb_neq in Hdd. rewrite Hdd. reflexivity.
    + apply Join2_up_down; try assumption.
      destruct bs', ts'; try discriminate. congruence.
Qed.

(** X15 — for a clean absolute base [MakeRelative] never falls back to the
    cleaned input: [filepath.Rel] succeeds, and joining the returned relative
    path to the base leads to the path [MakeAbsolute] computes. *)
Theorem MakeRelative_joins_back (env : Env) (a : AppDirs) (basePath input : string) :
  IsAbs basePath = true ->
  Clean basePath = basePath ->
  Rel basePath (MakeAbsolute env a basePath input)
  = Ok (MakeRelative env a basePath input)
  /\ Join2 basePath (MakeRelative env a basePath input)
     = MakeAbsolute env a basePath input.
Proof.
  intros Hb Hclean. unfold MakeRelative. cbv zeta.
  assert (Habs : IsAbs (MakeAbsolute env a basePath input) = true
                 /\ Clean (MakeAbsolute env a basePath input)
                    = MakeAbsolute env a basePath input)
    by (unfold MakeAbsolute; apply AbsPath_rooted_base; exact Hb).
  destruct Habs as [Habs Habs_clean].
  destruct (Clean_rooted_form _ Habs) as (ts & Hts & Htform).
  destruct (Clean_rooted_form _ Hb) as (bs & Hbs & Hbform).
  rewrite Habs_clean in Htform. rewrite Hclean in Hbform.
  destruct (Rel_rooted bs ts Hbs Hts) as (rel & Hrel & Hjoin).
  rewrite Htform, Hbform, Hrel. split; [reflexivity|exact Hjoin].
Qed.

Lemma MakeRelative_joins_back_witness :
  Rel "/home/u/proj" (MakeAbsolute unixEnv sampleDirs "/home/u/proj" "$TEMP/run")
  = Ok (MakeRelative unixEnv sampleDirs "/home/u/proj" "$TEMP/run")
  /\ Join2 "/home/u/proj" (MakeRelative unixEnv sampleDirs "/home/u/proj" "$TEMP/run")
     = MakeAbsolute unixEnv sampleDirs "/home/u/proj" "$TEMP/run".
Proof.
  apply (MakeRelative_joins_back unixEnv sampleDirs "/home/u/proj" "$TEMP/run");
    reflexivity.
Defined.

End RelativeToAbsoluteBase.

(** ** Creating, removing and recreating the temp directory *)

Section TempDirectory.
Import GoStrings filepath.

(** What a run of [CreateTemp] does, by the state of the temp path. *)
Lemma CreateTemp_run (a : AppDirs) (w : World) :
  let p := from_option path EmptyString (temp a) in
  exists e w',
    CreateTemp a w = Done (e, w')
    /\ readonly w' = readonly w
    /\ (forall q, q <> p -> tree w' !! q = tree w !! q)
    /\ match e with
       | None => p <> EmptyString /\ tree w' !! p = Some true
       | Some _ => tree w' = tree w
       end.
Proof.
  intros p. unfold CreateTemp, bind, lift, Temp_.
  assert (Hp : (if bool_decide (temp a ≠ None) then deref path (temp a) else Done EmptyString)
               = Done p) by (unfold p; destruct (temp a); reflexivity).
  rewrite Hp. destruct (String.eqb_spec p EmptyString) as [Hempty|Hne].
  { unfold ret. eauto 10. }
  unfold os_Stat, ret. destruct (tree w !! p) as [[|]|] eqn:Hstat.
  - exists None, (logCall (SysStat p) w). repeat split; auto.
  - eexists _, _. split; [reflexivity|]. repeat split.
  - unfold os_Mkdir. cbn [tree readonly logCall]. rewrite Hstat.
    destruct (tree w !! Dir p) as [[|]|].
    + destruct (existsb (String.eqb p) (readonly w)).
      * eexists _, _. split; [reflexivity|]. repeat split.
      * eexists _, _. split; [reflexivity|]. cbn [tree readonly]. repeat split; auto.
        -- intros q Hq. apply lookup_insert_ne. congruence.
        -- apply lookup_insert_eq.
    + eexists _, _. split; [reflexivity|]. repeat split.
    + eexists _, _. split; [reflexivity|]. repeat split.
Qed.

(** X16 — [CreateTemp] never panics and never removes or changes an entry:
    when it reports success the temp path is configured and is a directory
    afterwards, every other path is as before; when it reports an error the
    directory tree is untouched. *)
Theorem CreateTemp_postcondition (a : AppDirs) (w : World) :
  exists e w',
    CreateTemp a w = Done (e, w')
    /\ (forall q, q <> from_option path EmptyString (temp a) -> tree w' !! q = tree w !! q)
    /\ match e with
       | None => from_option path EmptyString (temp a) <> EmptyString
                 /\ tree w' !! from_option path EmptyString (temp a) = Some true
       | Some _ => tree w' = tree w
       end.
Proof.
  destruct (CreateTemp_run a w) as (e & w' & Hrun & _ & Hframe & Hpost).
  exists e, w'. auto.
Qed.

(** X17 — [CreateTemp] is idempotent: after a successful run a second run
    succeeds with a single [Stat] call and creates nothing. *)
Theorem CreateTemp_idempotent (a : AppDirs) (w w' : World) :
  CreateTemp a w = Done (None, w') ->
  CreateTemp a w'
  = Done (None, logCall (SysStat (from_option path EmptyString (temp a))) w').
Proof.
  intros Hrun. destruct (CreateTemp_run a w) as (e & w1 & Hrun1 & _ & _ & Hpost).
  rewrite Hrun in Hrun1. injection Hrun1 as <- <-. destruct Hpost as [Hne Hdir].
  unfold CreateTemp, bind, lift, Temp_.
  assert (Hp : (if bool_decide (temp a ≠ None) then deref path (temp a) else Done EmptyString)
               = Done (from_option path EmptyString (temp a)))
    by (destruct (temp a); reflexivity).
  rewrite Hp. apply String.eqb_neq in Hne. rewrite Hne.
  unfold os_Stat, ret. rewrite Hdir. reflexivity.
Qed.

Lemma CreateTemp_idempotent_witness :
  CreateTemp sampleDirs (logCall (SysStat "/tmp/Test") sampleWorld)
  = Done (None, logCall (SysStat (from_option path EmptyString (temp sampleDirs)))
                  (logCall (SysStat "/tmp/Test") sampleWorld)).
Proof.
  apply (CreateTemp_idempotent sampleDirs sampleWorld). vm_compute. reflexivity.
Defined.

(** What a run of [RemoveTemp] does once the temp slot is set. *)
Lemma RemoveTemp_run (env : Env) (a : AppDirs) (subdir : string) (w w' : World) (e : error) :
  RemoveTemp env a subdir w = Done (e, w') ->
  readonly w' = readonly w
  /\ (forall q, atOrBelow (tempTarget a subdir) q = false -> tree w' !! q = tree w !! q)
  /\ (forall q, tree w' !! q = Some true -> tree w !! q = Some true)
  /\ (trace w' = trace w /\ e <> None
      \/ trace w' = trace w ++ [SysRemoveAll (tempTarget a subdir)]
         /\ HasPrefix (tempTarget a subdir) (Clean (os_TempDir env)) = true
         /\ tempTarget a subdir <> Clean (os_TempDir env))
  /\ match e with
     | None => forall q, atOrBelow (tempTarget a subdir) q = true -> tree w' !! q = None
     | Some _ => tree w' = tree w
     end.
Proof.
  unfold RemoveTemp, tempTarget, bind, lift, deref.
  destruct (temp a) as [d|]; [|discriminate]. cbn [from_option].
  destruct (String.eqb (path d) EmptyString).
  { unfold ret. intros H. injection H as <- <-. repeat split; auto; try (left; split; congruence). }
  cbv zeta. destruct (HasPrefix (Join2 (path d) subdir) (Clean (os_TempDir env))) eqn:Hpre;
    cbn [negb].
  2:{ unfold ret. intros H. injection H as <- <-. repeat split; auto; try (left; split; congruence). }
  destruct (String.eqb_spec (Join2 (path d) subdir) (Clean (os_TempDir env))) as [Heq|Hne].
  { unfold ret. intros H. injection H as <- <-. repeat split; auto; try (left; split; congruence). }
  unfold os_RemoveAll. cbv zeta.
  destruct (existsb (atOrBelow (Join2 (path d) subdir)) (readonly w)).
  - unfold ret. intros H. injection H as <- <-. cbn [tree readonly trace logCall].
    repeat split; auto.
  - unfold ret. intros H. injection H as <- <-. cbn [tree readonly trace logCall].
    repeat split; auto.
    + intros q Hq. destruct (tree w !! q) as [v|] eqn:Hw.
      * apply map_lookup_filter_Some. split; [exact Hw|exact Hq].
      * apply map_lookup_filter_None. left. exact Hw.
    + intros q Hq. apply map_lookup_filter_Some in Hq as [Hq _]. exact Hq.
    + intros q Hq. apply map_lookup_filter_None. right. intros v _. cbn. congruence.
Qed.



(** How [RecreateTemp] continues after [RemoveTemp]. *)
Lemma RecreateTemp_after_removal (env : Env) (a : AppDirs) (subdir : string) (w : World) :
  RecreateTemp env a subdir w
  = match RemoveTemp env a subdir w with
    | Done (Some msg, w1) => Done (Some msg, w1)
    | Done (None, w1) =>
        match os_Mkdir (tempTarget a subdir) w1 with
        | Done (Some _, w2) =>
            Done (Some ("cannot create temp directory: " +:+ tempTarget a subdir), w2)
        | Done (None, w2) => Done (None, w2)
        | Panic why => Panic why
        end
    | Panic why => Panic why
    end.
Proof.
  unfold RecreateTemp, bind.
  destruct (RemoveTemp env a subdir w) as [[[msg|] w1]|why] eqn:Hrm; try reflexivity.
  unfold lift, deref, tempTarget. destruct (temp a) as [d|] eqn:Ht.
  - cbn [from_option].
    destruct (os_Mkdir (Join2 (path d) subdir) w1) as [[[msg|] w2]|why]; reflexivity.
  - exfalso. unfold RemoveTemp, bind, lift, deref in Hrm. rewrite Ht in Hrm. discriminate.
Qed.

(** X19 — after a successful [RecreateTemp] the target is an existing
    directory with nothing below it, every path outside the target is as
    before, and exactly two system calls were made: the removal and the
    [Mkdir] of the target.  The parent of the target was a directory
    beforehand: [RecreateTemp] does not create missing parents. *)
Theorem RecreateTemp_success (env : Env) (a : AppDirs) (subdir : string) (w w' : World) :
  RecreateTemp env a subdir w = Done (None, w') ->
  tree w' !! tempTarget a subdir = Some true
  /\ (forall q, q <> tempTarget a subdir -> atOrBelow (tempTarget a subdir) q = true ->
        tree w' !! q = None)
  /\ (forall q, atOrBelow (tempTarget a subdir) q = false -> tree w' !! q = tree w !! q)
  /\ tree w !! Dir (tempTarget a subdir) = Some true
  /\ trace w' = trace w ++ [SysRemoveAll (tempTarget a subdir); SysMkdir (tempTarget a subdir)].
Proof.
  rewrite RecreateTemp_after_removal.
  destruct (RemoveTemp env a subdir w) as [[[msg|] w1]|why] eqn:Hrm; try discriminate.
  destruct (RemoveTemp_run env a subdir w w1 None Hrm) as (_ & Hframe & Hdirs & Htrace & Hgone).
  destruct Htrace as [[_ Habs]|(Htrace & _ & _)]; [congruence|].
  unfold os_Mkdir. cbv zeta.
  destruct (tree w1 !! tempTarget a subdir) as [v|]; [discriminate|].
  destruct (tree w1 !! Dir (tempTarget a subdir)) as [[|]|] eqn:Hparent; try discriminate.
  destruct (existsb _ (readonly w1)); [discriminate|].
  intros H. injection H as <-. cbn [tree trace logCall].
  assert (Hself : atOrBelow (tempTarget a subdir) (tempTarget a subdir) = true)
    by (unfold atOrBelow; rewrite String.eqb_refl; reflexivity).
  repeat split.
  - apply lookup_insert_eq.
  - intros q Hq Hbelow. rewrite lookup_insert_ne by congruence. apply Hgone. exact Hbelow.
  - intros q Hq. rewrite lookup_insert_ne by (intros <-; congruence). apply Hframe. exact Hq.
  - apply Hdirs. exact Hparent.
  - rewrite Htrace, <- app_assoc. reflexivity.
Qed.

Lemma RecreateTemp_success_witness :
  exists w',
    RecreateTemp unixEnv sampleDirs "" sampleWorld = Done (None, w')
    /\ tree w' !! "/tmp/Test" = Some true
    /\ trace w' = [SysRemoveAll "/tmp/Test"; SysMkdir "/tmp/Test"].
Proof.
  eexists. split; [vm_compute; reflexivity|].
  pose proof (RecreateTemp_success unixEnv sampleDirs "" sampleWorld _
                ltac:(vm_compute; reflexivity)) as (Hdir & _ & _ & _ & Htrace).
  split; [exact Hdir|exact Htrace].
Defined.

(** X20 — the two ways [RecreateTemp] fails.  An error of [RemoveTemp] is
    handed on as it is and no directory is created.  If the removal went
    through but the parent of the target is no directory, the target stays
    removed and the error is "cannot create temp directory: <target>". *)
Theorem RecreateTemp_failures (env : Env) (a : AppDirs) (subdir : string) (w w1 : World) :
  (forall msg, RemoveTemp env a subdir w = Done (Some msg, w1) ->
               RecreateTemp env a subdir w = Done (Some msg, w1))
  /\ (RemoveTemp env a subdir w = Done (None, w1) ->
      tree w !! Dir (tempTarget a subdir) <> Some true ->
      RecreateTemp env a subdir w
      = Done (Some ("cannot create temp directory: " +:+ tempTarget a subdir),
              logCall (SysMkdir (tempTarget a subdir)) w1)
      /\ tree w1 !! tempTarget a subdir = None).
Proof.
  split.
  - intros msg Hrm. rewrite RecreateTemp_after_removal, Hrm. reflexivity.
  - intros Hrm Hparent. rewrite RecreateTemp_after_removal, Hrm.
    destruct (RemoveTemp_run env a subdir w w1 None Hrm) as (_ & _ & Hdirs & _ & Hgone).
    assert (Hself : tree w1 !! tempTarget a subdir = None).
    { apply Hgone. unfold atOrBelow. rewrite String.eqb_refl. reflexivity. }
    split; [|exact Hself].
    unfold os_Mkdir. cbv zeta. rewrite Hself.
    destruct (tree w1 !! Dir (tempTarget a subdir)) as [[|]|] eqn:Hp; try reflexivity.
    exfalso. apply Hparent, Hdirs. exact Hp.
Qed.

Lemma RecreateTemp_failures_witness :
  RecreateTemp unixEnv sampleDirs "a/b" sampleWorld
  = Done (Some ("cannot create temp directory: " +:+ tempTarget sampleDirs "a/b"),
          logCall (SysMkdir (tempTarget sampleDirs "a/b"))
                  (logCall (SysRemoveAll "/tmp/Test/a/b") sampleWorld))
  /\ tree (logCall (SysRemoveAll "/tmp/Test/a/b") sampleWorld) !! tempTarget sampleDirs "a/b"
     = None.
Proof.
  apply (proj2 (RecreateTemp_failures unixEnv sampleDirs "a/b" sampleWorld
                  (logCall (SysRemoveAll "/tmp/Test/a/b") sampleWorld))).
  - vm_compute. reflexivity.
  - vm_compute. discriminate.
Defined.

End TempDirectory.

(** ** The search of [Root] *)

Section RootSearch.
Import GoStrings GoStringsFacts CleanFacts filepath.

Lemma rootLoop_frame (fuel : nat) (dir : string) (isRoot : bool) (w w' : World)
    (r : option (result string)) :
  rootLoop fuel dir isRoot w = Done (r, w') ->
  tree w' = tree w /\ readonly w' = readonly w
  /\ exists calls, trace w' = trace w ++ calls /\ Forall (fun c => isStat c = true) calls.
Proof.
  revert dir isRoot w. induction fuel as [|fuel IH]; intros dir isRoot w.
  - simpl. unfold ret. intros H. injection H as _ <-.
    repeat split. exists []. rewrite app_nil_r. split; [reflexivity|constructor].
  - rewrite rootLoop_step. cbv zeta.
    assert (Hone : forall x, Done (x, logCall (SysStat (Join2 dir ".git")) w) = Done (r, w') ->
              tree w' = tree w /\ readonly w' = readonly w
              /\ exists calls, trace w' = trace w ++ calls
                               /\ Forall (fun c => isStat c = true) calls).
    { intros x H. injection H as _ <-. repeat split.
      exists [SysStat (Join2 dir ".git")]. split; [reflexivity|repeat constructor]. }
    destruct (tree w !! Join2 dir ".git") as [[|]|]; [apply Hone| |].
    all: destruct isRoot; [apply Hone|].
    all: intros H; apply IH in H as (Ht & Hr & calls & Htr & Hcalls).
    all: repeat split; [exact Ht|exact Hr|].
    all: exists (SysStat (Join2 dir ".git") :: calls).
    all: split; [rewrite Htr; cbn [trace logCall]; rewrite <- app_assoc; reflexivity|].
    all: constructor; [reflexivity|exact Hcalls].
Qed.

Lemma Root_frame (env : Env) (appName : string) (w w' : World)
    (r : option (result string)) :
  Root env appName w = Done (r, w') ->
  tree w' = tree w /\ readonly w' = readonly w
  /\ exists calls, trace w' = trace w ++ calls /\ Forall (fun c => isStat c = true) calls.
Proof.
  unfold Root. destruct (os_Getwd env) as [dir|e].
  - destruct (String.eqb _ appName).
    + unfold ret. intros H. injection H as _ <-. repeat split.
      exists []. rewrite app_nil_r. split; [reflexivity|constructor].
    + apply rootLoop_frame.
  - unfold ret. intros H. injection H as _ <-. repeat split.
    exists []. rewrite app_nil_r. split; [reflexivity|constructor].
Qed.

(** X21 — [Root] only looks: whatever it returns, the directory tree is as
    before and every system call it made is a [Stat]. *)
Theorem Root_only_stats (env : Env) (appName : string) (w w' : World)
    (r : option (result string)) :
  Root env appName w = Done (r, w') ->
  tree w' = tree w /\ readonly w' = readonly w
  /\ exists calls, trace w' = trace w ++ calls /\ Forall (fun c => isStat c = true) calls.
Proof. apply Root_frame. Qed.

Lemma Root_only_stats_witness :
  tree (mkWorld (tree sampleWorld) [] [SysStat "/home/u/proj/cmd/.git"; SysStat "/home/u/proj/.git"])
  = tree sampleWorld.
Proof.
  apply (Root_only_stats (mkEnv false "/usr/local/bin/go" (Ok "/home/u/proj/cmd")
                            (Ok "/home/u/.cache") (Ok "/home/u") "/tmp")
           "Test" sampleWorld _ (Some (Ok "/home/u/proj"))).
  vm_compute. reflexivity.
Defined.

Lemma ancestorsOf_snoc (xs : list string) (x : string) :
  ancestorsOf (xs ++ [x]) = rootedAt (xs ++ [x]) :: ancestorsOf xs.
Proof.
  unfold ancestorsOf. rewrite rev_app_distr. simpl rev at 1. simpl app.
  simpl ancestorsRev. simpl rev. rewrite rev_involutive. reflexivity.
Qed.

Lemma rootLoop_at_top (fuel : nat) (w : World) :
  exists w',
    rootLoop (S fuel) (rootedAt []) true w = Done (Some (nearestRepository (tree w) []), w')
    /\ tree w' = tree w.
Proof.
  rewrite rootLoop_step. cbv zeta.
  unfold nearestRepository, ancestorsOf. simpl ancestorsRev. simpl find. unfold holdsGit.
  change (rootedAt (rev [])) with (rootedAt []).
  destruct (tree w !! Join2 (rootedAt []) ".git") as [[|]|]; eexists; split; reflexivity.
Qed.

(** From a clean absolute directory the loop returns the nearest directory
    that holds [.git]. *)
Lemma rootLoop_nearest (segs : list string) :
  Forall (fun s => isPlain s = true) segs ->
  forall (fuel : nat) (w : World),
    (length segs + 2 <= fuel)%nat ->
    exists w',
      rootLoop fuel (rootedAt segs) false w
      = Done (Some (nearestRepository (tree w) segs), w')
      /\ tree w' = tree w.
Proof.
  induction segs as [|x xs IH] using rev_ind; intros Hplain fuel w Hfuel.
  - destruct fuel as [|[|fuel]]; [simpl in Hfuel; lia..|].
    rewrite rootLoop_step. cbv zeta.
    change (Dir (rootedAt [])) with (rootedAt []).
    change (String.eqb (rootedAt []) (VolumeName (rootedAt []) +:+ String Separator EmptyString)
            || String.eqb (rootedAt []) (String Separator EmptyString)) with true.
    destruct (tree w !! Join2 (rootedAt []) ".git") as [[|]|] eqn:Hgit.
    + eexists. split.
      * unfold nearestRepository, ancestorsOf. simpl ancestorsRev. simpl find.
        unfold holdsGit. change (rootedAt (rev [])) with (rootedAt []).
        rewrite Hgit. reflexivity.
      * reflexivity.
    + destruct (rootLoop_at_top fuel (logCall (SysStat (Join2 (rootedAt []) ".git")) w))
        as (w' & Hrun & Htree).
      exists w'. split; [exact Hrun|exact Htree].
    + destruct (rootLoop_at_top fuel (logCall (SysStat (Join2 (rootedAt []) ".git")) w))
        as (w' & Hrun & Htree).
      exists w'. split; [exact Hrun|exact Htree].
  - apply Forall_app in Hplain as [Hxs Hx]. apply Forall_cons in Hx as [Hx _].
    rewrite length_app in Hfuel. simpl in Hfuel.
    destruct fuel as [|fuel]; [lia|].
    rewrite rootLoop_step. cbv zeta.
    unfold nearestRepository. rewrite ancestorsOf_snoc. simpl find. unfold holdsGit at 1.
    fold (nearestRepository (tree w) xs).
    assert (Hup : Dir (rootedAt (xs ++ [x])) = rootedAt xs)
      by (apply Dir_rooted_plain; assumption).
    rewrite Hup.
    assert (Hnext : exists w',
               rootLoop fuel (rootedAt xs)
                 (String.eqb (rootedAt xs) (VolumeName (rootedAt xs) +:+ String Separator EmptyString)
                  || String.eqb (rootedAt xs) (String Separator EmptyString))
                 (logCall (SysStat (Join2 (rootedAt (xs ++ [x])) ".git")) w)
               = Done (Some (nearestRepository (tree w) xs), w')
               /\ tree w' = tree w).
    { destruct xs as [|y ys].
      - destruct fuel as [|fuel]; [lia|].
        destruct (rootLoop_at_top fuel (logCall (SysStat (Join2 (rootedAt ([] ++ [x])) ".git")) w))
          as (w' & Hrun & Htree).
        exists w'. split; [exact Hrun|exact Htree].
      - assert (Hnot : String.eqb (rootedAt (y :: ys))
                         (VolumeName (rootedAt (y :: ys)) +:+ String Separator EmptyString)
                       || String.eqb (rootedAt (y :: ys)) (String Separator EmptyString)
                       = false).
        { assert (Hne : rootedAt (y :: ys) <> String Separator EmptyString).
          { unfold rootedAt. intros H. injection H as H.
            apply Forall_cons in Hxs as [Hy _]. apply isPlain_spec in Hy as (Hy & _).
            destruct y as [|c y]; [congruence|].
            destruct ys; simpl in H; [discriminate|].
            rewrite append_cons in H. discriminate. }
          apply String.eqb_neq in Hne.
          change (VolumeName (rootedAt (y :: ys)) +:+ String Separator EmptyString)
            with (String Separator EmptyString).
          rewrite Hne. reflexivity. }
        rewrite Hnot.
        destruct (IH Hxs fuel (logCall (SysStat (Join2 (rootedAt ((y :: ys) ++ [x])) ".git")) w)
                    ltac:(simpl in *; lia)) as (w' & Hrun & Htree).
        exists w'. split; [exact Hrun|exact Htree]. }
    destruct (tree w !! Join2 (rootedAt (xs ++ [x])) ".git") as [[|]|].
    + eexists. split; reflexivity.
    + exact Hnext.
    + exact Hnext.
Qed.

(** X22 — started anywhere but from the installed binary, in a clean absolute
    working directory, [Root] returns the nearest directory at or above the
    working directory that holds a [.git] directory, and the error "cannot
    identify workspace root (no .git repository found)" when there is none;
    the loop always ends. *)
Theorem Root_nearest_repository (env : Env) (appName : string) (segs : list string)
    (w : World) :
  os_Getwd env = Ok (rootedAt segs) ->
  Forall (fun s => isPlain s = true) segs ->
  commandName env <> appName ->
  exists w',
    Root env appName w = Done (Some (nearestRepository (tree w) segs), w')
    /\ tree w' = tree w.
Proof.
  intros Hwd Hplain Hcmd. unfold Root. rewrite Hwd. fold (commandName env).
  apply String.eqb_neq in Hcmd. rewrite Hcmd.
  apply rootLoop_nearest; [exact Hplain|].
  pose proof (plain_elements_length segs Hplain). unfold rootedAt. simpl String.length. lia.
Qed.

Lemma Root_nearest_repository_witness :
  exists w',
    Root (mkEnv false "/usr/local/bin/go" (Ok (rootedAt ["home"; "u"; "proj"; "cmd"]))
            (Ok "/home/u/.cache") (Ok "/home/u") "/tmp") "Test" sampleWorld
    = Done (Some (nearestRepository (tree sampleWorld) ["home"; "u"; "proj"; "cmd"]), w')
    /\ tree w' = tree sampleWorld.
Proof.
  apply (Root_nearest_repository
           (mkEnv false "/usr/local/bin/go" (Ok (rootedAt ["home"; "u"; "proj"; "cmd"]))
              (Ok "/home/u/.cache") (Ok "/home/u") "/tmp")
           "Test" ["home"; "u"; "proj"; "cmd"] sampleWorld).
  - reflexivity.
  - repeat constructor.
  - vm_compute. discriminate.
Defined.

Example nearestRepository_sample :
  nearestRepository (tree sampleWorld) ["home"; "u"; "proj"; "cmd"] = Ok "/home/u/proj"
  /\ nearestRepository (tree sampleWorld) ["tmp"; "Test"]
     = Err "cannot identify workspace root (no .git repository found)".
Proof. split; vm_compute; reflexivity. Qed.

End RootSearch.

(** ** The registry [NewAppDirs] builds *)

Section DefaultRegistry.
Import GoStrings.




Lemma NewDir_plain_err (env : Env) (kind : DirType) (appName : string) (w w' : World)
    (msg : string) :
  NewDir env kind appName [] w = Done (Some (Err msg), w') ->
  exists name, String_ kind = Done name
               /\ msg = "cannot initialize directory: " +:+ name.
Proof.
  unfold NewDir. simpl fold_left. cbn [opt_path opt_aliases String.eqb negb length Nat.eqb].
  unfold bind. destruct (defaultPath env kind appName w) as [[r w1]|why]; [|discriminate].
  unfold ret. destruct r as [[p [e|]]|]; simpl; try discriminate.
  unfold lift. destruct (String_ kind) as [name|]; [|discriminate].
  intros H. injection H as <- _. eauto.
Qed.


Lemma defaultPath_frame (env : Env) (kind : DirType) (appName : string) (w w' : World)
    (r : option (string * error)) :
  defaultPath env kind appName w = Done (r, w') -> tree w' = tree w.
Proof.
  unfold defaultPath. cbv zeta.
  destruct (Z.eqb kind Cache).
  { destruct (os_UserCacheDir env); unfold ret; intros H; injection H as _ <-; reflexivity. }
  destruct (Z.eqb kind Config || Z.eqb kind Workspace).
  { unfold bind. destruct (Root env appName w) as [[r0 w1]|] eqn:Hroot; [|discriminate].
    unfold ret. intros H. injection H as _ <-.
    apply Root_frame in Hroot as [Ht _]. exact Ht. }
  destruct (Z.eqb kind Home); [unfold ret; intros H; injection H as _ <-; reflexivity|].
  destruct (Z.eqb kind Temp); unfold ret; intros H; injection H as _ <-; reflexivity.
Qed.




(** X24 — when [NewAppDirs] fails, the error is "cannot initialize
    directory: " followed by cache, config, home or workspace (the temp
    descriptor cannot fail), and the directory tree is as before. *)
Theorem NewAppDirs_failure (env : Env) (appName : string) (w w' : World) (msg : string) :
  NewAppDirs env appName w = Done (Some (Err msg), w') ->
  msg ∈ ["cannot initialize directory: cache"; "cannot initialize directory: config";
         "cannot initialize directory: home"; "cannot initialize directory: workspace"]
  /\ tree w' = tree w.
Proof.
  unfold NewAppDirs. cbv zeta. unfold bind, ret. intros H.
  assert (Hframe : forall kind v v' r,
             NewDir env kind appName [] v = Done (r, v') -> tree v' = tree v).
  { intros kind v v' r. unfold NewDir. simpl fold_left.
    cbn [opt_path opt_aliases String.eqb negb length Nat.eqb]. unfold bind.
    destruct (defaultPath env kind appName v) as [[r0 v1]|why] eqn:Hdp; [|discriminate].
    apply defaultPath_frame in Hdp. unfold ret.
    destruct r0 as [[p [e|]]|]; simpl.
    - unfold lift. destruct (String_ kind); [|discriminate].
      intros Hr. injection Hr as _ <-. exact Hdp.
    - intros Hr. injection Hr as _ <-. exact Hdp.
    - intros Hr. injection Hr as _ <-. exact Hdp. }
  destruct (NewDir env Cache appName [] w) as [[[[c|e]|] w1]|] eqn:Hc; try discriminate.
  2:{ injection H as <- <-. apply NewDir_plain_err in Hc as Hm.
      destruct Hm as (name & Hname & ->). apply Hframe in Hc.
      injection Hname as <-. split; [|exact Hc]. set_solver. }
  destruct (NewDir env Config appName [] w1) as [[[[g|e]|] w2]|] eqn:Hg; try discriminate.
  2:{ injection H as <- <-. apply NewDir_plain_err in Hg as Hm.
      destruct Hm as (name & Hname & ->). apply Hframe in Hc, Hg.
      injection Hname as <-. split; [|congruence]. set_solver. }
  destruct (NewDir env Home appName [] w2) as [[[[h|e]|] w3]|] eqn:Hh; try discriminate.
  2:{ injection H as <- <-. apply NewDir_plain_err in Hh as Hm.
      destruct Hm as (name & Hname & ->). apply Hframe in Hc, Hg, Hh.
      injection Hname as <-. split; [|congruence]. set_solver. }
  destruct (NewDir env Temp appName [] w3) as [[[[t|e]|] w4]|] eqn:Ht; try discriminate.
  destruct (NewDir env Workspace appName [] w4) as [[[[ws|e]|] w5]|] eqn:Hws;
    try discriminate.
  injection H as <- <-. apply NewDir_plain_err in Hws as Hm.
  destruct Hm as (name & Hname & ->). apply Hframe in Hc, Hg, Hh, Ht, Hws.
  injection Hname as <-. split; [|congruence]. set_solver.
Qed.

Lemma NewAppDirs_failure_witness :
  "cannot initialize directory: cache"
    ∈ ["cannot initialize directory: cache"; "cannot initialize directory: config";
       "cannot initialize directory: home"; "cannot initialize directory: workspace"]
  /\ tree sampleWorld = tree sampleWorld.
Proof.
  apply (NewAppDirs_failure brokenEnv "Test" sampleWorld sampleWorld).
  vm_compute. reflexivity.
Defined.

End DefaultRegistry.

(** ** Assigning and reading back *)

Section AssignAccessors.

(** X25 — what the accessor of a directory type returns right after a
    descriptor of that type was assigned: [Cache], [Home], [Temp] and
    [Workspace] return the assigned path, whatever the registry held before;
    [Config] returns it only if a cache descriptor is set, and the empty
    string otherwise. *)
Theorem Assign_then_accessor (env : Env) (a : AppDirs) (d : Dir) :
  (dirType d = Cache -> Cache_ (Assign env a d) = Done (path d))
  /\ (dirType d = Home -> Home_ (Assign env a d) = Done (path d))
  /\ (dirType d = Temp -> Temp_ (Assign env a d) = Done (path d))
  /\ (dirType d = Workspace -> Workspace_ (Assign env a d) = Done (path d))
  /\ (dirType d = Config ->
        Config_ (Assign env a d)
        = if bool_decide (cache a ≠ None) then Done (path d) else Done EmptyString).
Proof.
  destruct a as [c g h t ws kw rv].
  repeat split; intros Hty; unfold Assign; rewrite Hty;
    cbn [Z.eqb Pos.eqb Cache Config Home Temp Workspace];
    cbn [cache config home temp workspace keywords keywordsReverse].
  - destruct (bool_decide (c ≠ None)); unfold Cache_; cbn; apply f_equal, withDefaults_path.
  - destruct (bool_decide (h ≠ None)); unfold Home_; cbn; apply f_equal, withDefaults_path.
  - destruct (bool_decide (t ≠ None)); unfold Temp_; cbn; apply f_equal, withDefaults_path.
  - destruct (bool_decide (ws ≠ None)); unfold Workspace_; cbn;
      apply f_equal, withDefaults_path.
  - destruct (bool_decide (g ≠ None)); unfold Config_; cbn;
      destruct c; cbn; try reflexivity; apply f_equal, withDefaults_path.
Qed.

Lemma Assign_then_accessor_witness :
  Workspace_ (Assign unixEnv sampleDirs (mkDir Workspace "/mydir" ["$MYDIR"])) = Done "/mydir"
  /\ Config_ (Assign unixEnv emptyAppDirs (mkDir Config "/etc/app" []))
     = (if bool_decide (cache emptyAppDirs ≠ None) then Done "/etc/app" else Done EmptyString).
Proof.
  split.
  - apply (Assign_then_accessor unixEnv sampleDirs (mkDir Workspace "/mydir" ["$MYDIR"])).
    reflexivity.
  - apply (Assign_then_accessor unixEnv emptyAppDirs (mkDir Config "/etc/app" [])).
    reflexivity.
Defined.

(** X26 — the [String] method of the earlier revision indexes the name table
    with the directory type itself: Cache, Config, Home and Workspace get the
    name of the next type, and Temp runs past the end of the table. *)
Theorem String_rev0_off_by_one (d : DirType) :
  (Cache <= d < Temp -> String_rev0 d = String_ (d + 1))
  /\ (d = Temp -> String_rev0 d = Panic "index out of range")
  /\ (d < Cache \/ Temp < d -> String_rev0 d = Done EmptyString).
Proof.
  unfold Cache, Temp. repeat split.
  - intros Hd.
    assert (Hc : d = 1 \/ d = 2 \/ d = 3 \/ d = 4) by lia.
    destruct Hc as [-> | [-> | [-> | ->]]]; reflexivity.
  - intros ->. reflexivity.
  - intros Hd. unfold String_rev0, Cache, Temp.
    destruct (Z.ltb_spec d 1); [reflexivity|].
    destruct (Z.ltb_spec 5 d); [reflexivity|]. lia.
Qed.

Lemma String_rev0_off_by_one_witness :
  String_rev0 Home = String_ (Home + 1) /\ String_rev0 Temp = Panic "index out of range"
  /\ String_rev0 0 = Done EmptyString.
Proof.
  split; [|split].
  - apply (proj1 (String_rev0_off_by_one Home)). unfold Cache, Home, Temp. lia.
  - apply (proj1 (proj2 (String_rev0_off_by_one Temp))). reflexivity.
  - apply (proj2 (proj2 (String_rev0_off_by_one 0))). unfold Cache. lia.
Defined.

End AssignAccessors.

(** ** The tilde in [AbsPath] *)

Section Tilde.
Import GoStrings GoStringsFacts CleanFacts filepath.

Lemma Replace_first_byte (c : ascii) (rest new : string) :
  new <> String c EmptyString ->
  Replace (String c rest) (String c EmptyString) new 1 = new +:+ rest.
Proof.
  intros Hne. unfold Replace. cbn [Z.ltb Z.compare Z.to_nat Pos.to_nat Pos.iter_op Nat.add].
  assert (H1 : String.eqb (String c EmptyString) new = false).
  { apply String.eqb_neq. congruence. }
  rewrite H1. cbn [String.eqb]. cbn [replaceScan].
  assert (H2 : HasPrefix (String c rest) (String c EmptyString) = true).
  { change (HasPrefix (String c rest) (String c EmptyString))
      with (Ascii.eqb c c && HasPrefix rest EmptyString).
    rewrite Ascii.eqb_refl, HasPrefix_nil. reflexivity. }
  rewrite H2. f_equal. destruct rest; reflexivity.
Qed.

(** X27 — the tilde of [AbsPath].  Off Windows a path that starts with [~]
    has that one byte replaced by the home directory, also when the tilde is
    followed by something other than a separator ([~x] becomes the home
    directory with [x] glued on).  On Windows, and when the home directory
    cannot be determined, the tilde stays and the path is resolved against
    the base like any relative path. *)
Theorem AbsPath_tilde (env : Env) (base rest : string) :
  (goos_windows env = false ->
   forall hd, os_UserHomeDir env = Ok hd -> IsAbs hd = true ->
     AbsPath env base (String "~" rest) = Clean (hd +:+ rest))
  /\ (goos_windows env = true \/ (exists e, os_UserHomeDir env = Err e) ->
      AbsPath env base (String "~" rest) = Clean (Join2 base (String "~" rest))).
Proof.
  split.
  - intros Hos hd Hhome Habs. unfold AbsPath. rewrite Hos, Hhome. cbn [negb andb].
    change (HasPrefix (String "~" rest) "~") with (HasPrefix rest EmptyString).
    rewrite HasPrefix_nil.
    destruct (IsAbs_inv hd Habs) as (x & ->).
    rewrite (Replace_first_byte "~" rest (String Separator x)) by discriminate.
    rewrite append_cons, IsAbs_rooted. reflexivity.
  - intros Hcase. unfold AbsPath.
    assert (Hkeep : (if negb (goos_windows env) && HasPrefix (String "~" rest) "~"
                     then Replace (String "~" rest) "~"
                            match os_UserHomeDir env with Ok d => d | Err _ => "~" end 1
                     else String "~" rest) = String "~" rest).
    { destruct Hcase as [Hwin|(e & Herr)].
      - rewrite Hwin. reflexivity.
      - rewrite Herr. destruct (negb (goos_windows env) && _); reflexivity. }
    cbv zeta. rewrite Hkeep. reflexivity.
Qed.

Lemma AbsPath_tilde_witness :
  AbsPath unixEnv "/home/u/proj" (String "~" "x/y") = Clean ("/home/u" +:+ "x/y")
  /\ AbsPath brokenEnv "/home/u/proj" (String "~" "/x")
     = Clean (Join2 "/home/u/proj" (String "~" "/x")).
Proof.
  split.
  - apply (proj1 (AbsPath_tilde unixEnv "/home/u/proj" "x/y")); reflexivity.
  - apply (proj2 (AbsPath_tilde brokenEnv "/home/u/proj" "/x")).
    right. eexists. reflexivity.
Defined.

End Tilde.

(** ** When the iteration order of the reverse map does not matter *)

Section OrderIndependence.
Import GoStrings.

(** X28 — if no two registered paths have the same length, [Parameterize]
    returns the same result for every iteration order of the reverse map:
    the stable sort by length leaves only one arrangement. *)
Theorem Parameterize_order_independent (a : AppDirs) (order1 order2 : list (string * string))
    (basePath input : string) :
  iterationOf (keywordsReverse a) order1 ->
  iterationOf (keywordsReverse a) order2 ->
  map_Forall (fun k1 _ =>
                map_Forall (fun k2 _ => String.length k1 = String.length k2 -> k1 = k2)
                           (keywordsReverse a))
             (keywordsReverse a) ->
  ParameterizeWith order1 basePath input = ParameterizeWith order2 basePath input.
Proof.
  intros H1 H2 Hdistinct. unfold ParameterizeWith. rewrite !orderedItems_fold.
  assert (Heq : GoSort.SliceStable longerKey (itemsOf order1)
                = GoSort.SliceStable longerKey (itemsOf order2)).
  { apply (StronglySorted_unique_strong notShorter).
    - intros x1 x2 Hx1 Hx2 Hle1 Hle2.
      apply (itemsOf_elem _ _ x1 H1) in Hx1. apply (itemsOf_elem _ _ x2 H2) in Hx2.
      unfold notShorter in Hle1, Hle2.
      assert (Hk : key x1 = key x2).
      { apply (Hdistinct _ _ Hx1 _ _ Hx2). lia. }
      destruct x1 as [k1 v1], x2 as [k2 v2]. simpl in *. subst k2. congruence.
    - apply SortFacts.SliceStable_sorted.
    - apply SortFacts.SliceStable_sorted.
    - rewrite !SortFacts.SliceStable_perm. unfold itemsOf.
      apply fmap_Permutation. unfold iterationOf in H1, H2. rewrite H1, H2. reflexivity. }
  rewrite Heq. reflexivity.
Qed.

Lemma Parameterize_order_independent_witness :
  ParameterizeWith (map_to_list (keywordsReverse sampleDirs)) "/home/u/proj" "/tmp/Test/x"
  = ParameterizeWith (rev (map_to_list (keywordsReverse sampleDirs))) "/home/u/proj"
                     "/tmp/Test/x".
Proof.
  apply (Parameterize_order_independent sampleDirs
           (map_to_list (keywordsReverse sampleDirs))
           (rev (map_to_list (keywordsReverse sampleDirs))) "/home/u/proj" "/tmp/Test/x").
  - unfold iterationOf. reflexivity.
  - unfold iterationOf. symmetry. apply Permutation_rev.
  - refine (bool_decide_unpack _ _). vm_compute. exact I.
Defined.

(** With two keys of the same length the order of the iteration shows. *)
Example Parameterize_order_dependent :
  ParameterizeWith [("/ab", "$X"); ("b/c", "$Y")] "/" "/ab/c" = "$X/c"
  /\ ParameterizeWith [("b/c", "$Y"); ("/ab", "$X")] "/" "/ab/c" = "/a$Y".
Proof. split; vm_compute; reflexivity. Qed.

End OrderIndependence.
